(** * Request admission core of hono-starter

    A shallow embedding of the authentication middleware
    ([src/middleware/auth-middleware.ts]), the role and permission
    middleware ([src/middleware/role-permission-middleware.ts]), the token
    helpers of [src/lib/utils.ts] and the Redis sliding-window rate limiter
    (the module [@/middleware/rate-limiter], which follows the HTTP logger
    in [src/middleware/http-logger.ts]), followed by the properties the
    specification states about them.

    JavaScript numbers that the code only uses as integers (request counts,
    [Date.now()], seconds) are integers of [Z]; strings are [string];
    objects used as dictionaries are [gmap]s; [async] functions are
    computations of a state-and-exception monad over the [World] a request
    runs in. *)

From Stdlib Require Import ZArith Lia Ascii String.
From stdpp Require Import base option list gmap strings fin_maps pretty.

#[local] Open Scope Z_scope.

(** ** JavaScript values and string helpers *)

Module Js.

(** A variable that may hold [undefined], [null] or a value. *)
Inductive slot (A : Type) : Type :=
  | Undefined
  | Null
  | Value (a : A).
#[global] Arguments Undefined {A}.
#[global] Arguments Null {A}.
#[global] Arguments Value {A} a.

(** Truthiness of an object-valued variable: [undefined] and [null] are
    falsy, every object is truthy. *)
Definition truthy {A} (s : slot A) : option A :=
  match s with
  | Value a => Some a
  | Undefined | Null => None
  end.

(** Truthiness of a string-valued header: a missing header and the empty
    string are falsy. *)
Definition nonempty (o : option string) : option string :=
  match o with
  | Some s => if decide (s = "") then None else Some s
  | None => None
  end.

(** [s.startsWith(p)] *)
Fixpoint startsWith (p s : string) : bool :=
  match p, s with
  | EmptyString, _ => true
  | String a p', String b s' => if decide (a = b) then startsWith p' s' else false
  | String _ _, EmptyString => false
  end.

(** [s.split(sep)] for a one-character separator. *)
Fixpoint split (sep : ascii) (s : string) : list string :=
  match s with
  | EmptyString => [EmptyString]
  | String a s' =>
      if decide (a = sep) then EmptyString :: split sep s'
      else match split sep s' with
           | x :: xs => String a x :: xs
           | [] => [String a EmptyString]
           end
  end.

(** Whether the character occurs in the string. *)
Fixpoint contains (a : ascii) (s : string) : bool :=
  match s with
  | EmptyString => false
  | String b s' => if decide (b = a) then true else contains a s'
  end.

(** White space removed by [trim], restricted to the one-byte characters
    (tab, line feed, vertical tab, form feed, carriage return, space). *)
Definition is_space (a : ascii) : bool :=
  match a with
  | "009" | "010" | "011" | "012" | "013" | " " => true
  | _ => false
  end%char.

Fixpoint trimStart (s : string) : string :=
  match s with
  | String a s' => if is_space a then trimStart s' else s
  | EmptyString => EmptyString
  end.

Definition trimEnd (s : string) : string :=
  String.rev (trimStart (String.rev s)).

(** [s.trim()] *)
Definition trim (s : string) : string := trimEnd (trimStart s).

(** [Math.ceil(x / d)] for integers [x] and [d > 0]. *)
Definition ceil_div (x d : Z) : Z := - ((- x) / d).

(** [[...new Set(xs)]]: the elements of [xs] in order of first
    occurrence, each once. *)
Fixpoint set_add (seen : list string) (x : string) : list string :=
  match seen with
  | [] => [x]
  | y :: seen' => if decide (y = x) then seen else y :: set_add seen' x
  end.

Definition set_of (xs : list string) : list string :=
  fold_left set_add xs [].

(** [xs.includes(x)] *)
Definition includes (xs : list string) (x : string) : bool :=
  bool_decide (x ∈ xs).

End Js.

(** ** HTTP status codes ([stoker/http-status-codes]) *)

Module HttpStatusCodes.
Definition UNAUTHORIZED : Z := 401.
Definition FORBIDDEN : Z := 403.
Definition NOT_FOUND : Z := 404.
Definition TOO_MANY_REQUESTS : Z := 429.
End HttpStatusCodes.

(** ** Data *)

(** [JwtPayload] of [src/lib/types.ts]. *)
Record JwtPayload := {
  sub : string;
  exp : Z;
  type : option string;
}.

(** The object a later stage may find under the context key ["user"]. *)
Record UserVar := { user_sub : string }.

(** A JSON response [c.json({ message }, status)]. *)
Record Response := {
  status : Z;
  message : string;
}.

(** The Hono context [c] of one request.  Header names are kept in lower
    case, as Hono's case-insensitive [c.req.header] reads them. *)
Record Context := {
  req_headers : gmap string string;
  var_jwtPayload : Js.slot JwtPayload;
  var_user : Js.slot UserVar;
  res_headers : gmap string string;
}.

(** What [prisma.user.findUnique] selects for the middleware: the roles of
    the user, each with its name and permission names, and the names of the
    permissions granted directly. *)
Record RoleRow := {
  role_name : string;
  role_permissions : list string;
}.

Record UserRow := {
  user_roles : list RoleRow;
  user_permissions : list string;
}.

(** A sorted set stored under one Redis key: members with their scores, and
    the time (in milliseconds) at which the key expires, if a time to live
    was set. *)
Record ZKey := {
  zmembers : gmap string Z;
  zexpire : option Z;
}.

(** Thrown values. *)
Inductive Exn :=
  | HTTPException (status : Z) (message : string)
  | Error (message : string).

(** Everything a request can read or change. *)
Record World := {
  ctx : Context;
  (** value of [Date.now()] while the request is handled *)
  clock : Z;
  (** decimal rendering of the next [Math.random()] *)
  random : string;
  (** table [tb_user] with its relations, by user id *)
  db : gmap string UserRow;
  (** whether [initRedis] has set the module's client *)
  redis_ready : bool;
  (** the keys held by the Redis server *)
  redis_keys : gmap string ZKey;
  (** which of the coming Redis commands are rejected ([true]), in order;
      commands past the end of the list succeed *)
  redis_faults : list bool;
  (** lines written with [console.error] *)
  console : list string;
}.

Definition with_ctx (c : Context) (w : World) : World :=
  {| ctx := c; clock := clock w; random := random w; db := db w;
     redis_ready := redis_ready w; redis_keys := redis_keys w;
     redis_faults := redis_faults w; console := console w |}.

Definition with_redis (ks : gmap string ZKey) (fs : list bool) (w : World) : World :=
  {| ctx := ctx w; clock := clock w; random := random w; db := db w;
     redis_ready := redis_ready w; redis_keys := ks;
     redis_faults := fs; console := console w |}.

Definition with_console (l : list string) (w : World) : World :=
  {| ctx := ctx w; clock := clock w; random := random w; db := db w;
     redis_ready := redis_ready w; redis_keys := redis_keys w;
     redis_faults := redis_faults w; console := l |}.

Definition set_jwtPayload (p : Js.slot JwtPayload) (c : Context) : Context :=
  {| req_headers := req_headers c; var_jwtPayload := p;
     var_user := var_user c; res_headers := res_headers c |}.

Definition set_header (name value : string) (c : Context) : Context :=
  {| req_headers := req_headers c; var_jwtPayload := var_jwtPayload c;
     var_user := var_user c; res_headers := <[name := value]> (res_headers c) |}.

(** ** Computations *)

Inductive Res (A : Type) : Type :=
  | Ok (a : A)
  | Throw (e : Exn).
#[global] Arguments Ok {A} a.
#[global] Arguments Throw {A} e.

(** An [async] function body: it runs in a world, changes it, and either
    returns or throws. *)
Definition M (A : Type) : Type := World → Res A * World.

Definition ret {A} (a : A) : M A := λ w, (Ok a, w).

Definition throw {A} (e : Exn) : M A := λ w, (Throw e, w).

Definition bind {A B} (m : M A) (k : A → M B) : M B :=
  λ w, match m w with
       | (Ok a, w') => k a w'
       | (Throw e, w') => (Throw e, w')
       end.

(** [try { m } catch (e) { h e }] *)
Definition try_catch {A} (m : M A) (h : Exn → M A) : M A :=
  λ w, match m w with
       | (Ok a, w') => (Ok a, w')
       | (Throw e, w') => h e w'
       end.

Notation "'let*' x ':=' m 'in' k" := (bind m (λ x, k))
  (at level 10, x binder, m at level 100, k at level 200).
Notation "m ';;' k" := (bind m (λ _, k))
  (at level 100, k at level 200, right associativity).

Definition get_ctx : M Context := λ w, (Ok (ctx w), w).

Definition modify_ctx (f : Context → Context) : M unit :=
  λ w, (Ok tt, with_ctx (f (ctx w)) w).

(** [c.req.header(name)] *)
Definition req_header (name : string) (c : Context) : option string :=
  req_headers c !! name.

(** [c.header(name, value)] *)
Definition header (name value : string) : M unit :=
  modify_ctx (set_header name value).

(** [c.json({ message }, status)] *)
Definition json (message : string) (status : Z) : Response :=
  {| status := status; message := message |}.

(** [Date.now()] *)
Definition Date_now : M Z := λ w, (Ok (clock w), w).

(** [Math.random()], rendered as it is interpolated into a string. *)
Definition Math_random : M string := λ w, (Ok (random w), w).

(** [console.error(line, error)] *)
Definition console_error (line : string) : M unit :=
  λ w, (Ok tt, with_console (console w ++ [line]) w).

(** [prisma.user.findUnique({ where: { id } })]: the row, or [null]. *)
Definition findUnique (id : string) : M (option UserRow) :=
  λ w, (Ok (db w !! id), w).

(** A middleware returns a [Response], or nothing after [next()]. *)
Definition Middleware : Type := M unit → M (option Response).

(** Whether an outcome is a rejection with the given status. *)
Definition rejected_with {A} (code : Z) (r : Res A) : Prop :=
  ∃ message, r = Throw (HTTPException code message).

(** ** Role and permission middleware *)

Module RolePermission.

Definition unauthorized {A} : M A :=
  throw (HTTPException HttpStatusCodes.UNAUTHORIZED "Invalid or expired token").
Definition not_found {A} : M A :=
  throw (HTTPException HttpStatusCodes.NOT_FOUND "User not found").
Definition forbidden {A} : M A :=
  throw (HTTPException HttpStatusCodes.FORBIDDEN "Access denied").

(** The shared prologue of the six middleware: read the payload, look the
    user up. *)
Definition load_user : M UserRow :=
  let* c := get_ctx in
  match Js.truthy (var_jwtPayload c) with
  | None => unauthorized
  | Some jwtPayload =>
      let* user := findUnique (sub jwtPayload) in
      match user with
      | None => not_found
      | Some user => ret user
      end
  end.

Definition requireRole (roleName : string) : Middleware := λ next,
  let* user := load_user in
  let hasRole :=
    existsb (λ ur, bool_decide (role_name ur = roleName)) (user_roles user) in
  if negb hasRole then forbidden
  else (next;; ret None).

Definition requireAnyRole (roleNames : list string) : Middleware := λ next,
  let* user := load_user in
  let hasAnyRole :=
    existsb (λ ur, Js.includes roleNames (role_name ur)) (user_roles user) in
  if negb hasAnyRole then forbidden
  else (next;; ret None).

Definition requireAllRoles (roleNames : list string) : Middleware := λ next,
  let* user := load_user in
  let userRoles := map role_name (user_roles user) in
  let hasAllRoles :=
    forallb (λ roleName, Js.includes userRoles roleName) roleNames in
  if negb hasAllRoles then forbidden
  else (next;; ret None).

(** The three steps every permission middleware repeats. *)
Definition rolePermissions (user : UserRow) : list string :=
  flat_map role_permissions (user_roles user).

Definition directPermissions (user : UserRow) : list string :=
  user_permissions user.

Definition allPermissions (user : UserRow) : list string :=
  Js.set_of (rolePermissions user ++ directPermissions user).

Definition requirePermission (permissionName : string) : Middleware := λ next,
  let* user := load_user in
  let hasPermission := Js.includes (allPermissions user) permissionName in
  if negb hasPermission then forbidden
  else (next;; ret None).

Definition requireAnyPermission (permissionNames : list string) : Middleware := λ next,
  let* user := load_user in
  let hasAnyPermission :=
    existsb (λ permission, Js.includes (allPermissions user) permission)
            permissionNames in
  if negb hasAnyPermission then forbidden
  else (next;; ret None).

Definition requireAllPermissions (permissionNames : list string) : Middleware := λ next,
  let* user := load_user in
  let hasAllPermissions :=
    forallb (λ permission, Js.includes (allPermissions user) permission)
            permissionNames in
  if negb hasAllPermissions then forbidden
  else (next;; ret None).

End RolePermission.

(** ** Environment ([src/application/env.ts]) *)

Class Env := {
  RATE_LIMITER_MAX_REQUESTS : Z;
  RATE_LIMITER_WINDOW_MS : Z;
  JWT_SECRET : string;
  JWT_EXPIRES_IN : Z;
  REFRESH_TOKEN_SECRET : string;
  REFRESH_TOKEN_EXPIRES_IN : Z;
}.

(** ** The [hono/jwt] interface *)

(** Why [verify] rejects a token. *)
Inductive JwtError :=
  | JwtTokenInvalid
  | JwtTokenSignatureMismatched
  | JwtTokenExpired.

(** [sign(payload, secret)] and [verify(token, secret)]; [verify] also
    reads the clock (third argument, milliseconds) and either rejects the
    token or returns the decoded payload. *)
Class JwtLib := {
  sign : JwtPayload → string → string;
  verify : string → string → Z → JwtError + JwtPayload;
}.

(** What the library guarantees and the properties below rely on: a token
    made by [sign], if accepted at all, decodes to the payload signed. *)
Class JwtLawful `{JwtLib} := {
  verify_sign : ∀ payload secret secret' now decoded,
    verify (sign payload secret) secret' now = inr decoded → decoded = payload;
}.

(** ** Token helpers ([src/lib/utils.ts]) and their callers *)

Module Utils.
Section WithLibraries.
Context `{Env} `{JwtLib}.

(** [await verify(token, secret)]: returns the payload or throws. *)
Definition await_verify (token secret : string) : M JwtPayload :=
  λ w, match verify token secret (clock w) with
       | inr decode => (Ok decode, w)
       | inl _ => (Throw (Error "jwt"), w)
       end.

(** [Number(env.JWT_EXPIRES_IN) / 1000] is a whole number of seconds for
    a duration configured in whole seconds, as the defaults are. *)
Definition generateAccessToken (id_user : string) : M string :=
  let* now := Date_now in
  ret (sign {| sub := id_user;
               exp := now / 1000 + JWT_EXPIRES_IN / 1000;
               type := None |}
            JWT_SECRET).

Definition generateRefreshToken (id_user : string) : M string :=
  let* now := Date_now in
  ret (sign {| sub := id_user;
               exp := now / 1000 + REFRESH_TOKEN_EXPIRES_IN / 1000;
               type := Some "refresh" |}
            REFRESH_TOKEN_SECRET).

(** Returns the payload, or [null] ([None]). *)
Definition verifyAccessToken (token : string) : M (option JwtPayload) :=
  try_catch
    (let* decode := await_verify token JWT_SECRET in
     ret (Some decode))
    (λ _, ret None).

Definition verifyRefreshToken (token : string) : M (option JwtPayload) :=
  try_catch
    (let* decode := await_verify token REFRESH_TOKEN_SECRET in
     if negb (bool_decide (type decode = Some "refresh")) then ret None
     else ret (Some decode))
    (λ _, ret None).

End WithLibraries.
End Utils.

(** ** [refresh] of [src/modules/auth/auth.service.ts] *)

Module AuthService.
Section WithLibraries.
Context `{Env} `{JwtLib}.

(** Returns the new access token. *)
Definition refresh (refresh_token : string) : M string :=
  let* decode := Utils.verifyRefreshToken refresh_token in
  match decode with
  | None => throw (HTTPException HttpStatusCodes.UNAUTHORIZED "Invalid refresh token")
  | Some decode => Utils.generateAccessToken (sub decode)
  end.

End WithLibraries.
End AuthService.

(** ** Authentication middleware *)

Module Auth.
Section WithLibraries.
Context `{Env} `{JwtLib}.

Definition invalid_or_expired : Response :=
  json "Invalid or expired token" HttpStatusCodes.UNAUTHORIZED.

(** [payload] as stored by [c.set]. *)
Definition to_slot (payload : option JwtPayload) : Js.slot JwtPayload :=
  match payload with
  | Some p => Js.Value p
  | None => Js.Null
  end.

(** [auth.split(" ")[1]] is [undefined] ([None]) when there is no second
    piece; [verify] throws on it and [verifyAccessToken] returns [null]. *)
Definition authMiddleware : Middleware := λ next,
  let* c := get_ctx in
  let auth := req_header "authorization" c in
  match auth with
  | Some auth =>
      if negb (Js.startsWith "Bearer " auth) then ret (Some invalid_or_expired)
      else
        let token := Js.split " " auth !! 1%nat in
        try_catch
          (let* payload :=
             match token with
             | Some token => Utils.verifyAccessToken token
             | None => ret None
             end in
           modify_ctx (set_jwtPayload (to_slot payload));;
           next;;
           ret None)
          (λ _, ret (Some invalid_or_expired))
  | None => ret (Some invalid_or_expired)
  end.

End WithLibraries.
End Auth.

(** ** The Redis commands the limiter uses

    The client comes from the module [@/application/redis] (in
    [src/application/create-app.ts]); the commands are those of the Redis
    server. *)

Module Redis.

(** A key with a time to live is gone once the server's clock has passed
    its expiry time. *)
Definition expired (now : Z) (k : ZKey) : bool :=
  match zexpire k with
  | Some e => bool_decide (e < now)
  | None => false
  end.

(** The sorted set the server finds under [key] at time [now]. *)
Definition find (now : Z) (key : string) (ks : gmap string ZKey) : option ZKey :=
  match ks !! key with
  | Some k => if expired now k then None else Some k
  | None => None
  end.

(** Members with their scores; no members when the key does not exist. *)
Definition members (now : Z) (key : string) (ks : gmap string ZKey) : gmap string Z :=
  match find now key ks with
  | Some k => zmembers k
  | None => ∅
  end.

Definition in_range (lo hi : Z) (e : string * Z) : Prop := lo ≤ e.2 ≤ hi.

(** ZREMRANGEBYSCORE key lo hi: removes the members whose score lies in
    the closed interval; a sorted set left empty is deleted. *)
Definition zRemRangeByScore_at (now : Z) (key : string) (lo hi : Z)
    (ks : gmap string ZKey) : gmap string ZKey :=
  match find now key ks with
  | Some k =>
      let kept := filter (λ e, ¬ in_range lo hi e) (zmembers k) in
      if decide (kept = ∅) then delete key ks
      else <[key := {| zmembers := kept; zexpire := zexpire k |}]> ks
  | None => delete key ks
  end.

(** ZCARD key *)
Definition zCard_at (now : Z) (key : string) (ks : gmap string ZKey) : Z :=
  Z.of_nat (size (members now key ks)).

(** ZADD key score member: adds the member or updates its score; a new
    key has no time to live. *)
Definition zAdd_at (now : Z) (key : string) (score : Z) (member : string)
    (ks : gmap string ZKey) : gmap string ZKey :=
  match find now key ks with
  | Some k =>
      <[key := {| zmembers := <[member := score]> (zmembers k);
                  zexpire := zexpire k |}]> ks
  | None =>
      <[key := {| zmembers := {[member := score]}; zexpire := None |}]> ks
  end.

(** EXPIRE key seconds: a time to live that is not positive deletes the
    key. *)
Definition expire_at (now : Z) (key : string) (seconds : Z)
    (ks : gmap string ZKey) : gmap string ZKey :=
  match find now key ks with
  | Some k =>
      if decide (seconds ≤ 0) then delete key ks
      else <[key := {| zmembers := zmembers k;
                       zexpire := Some (now + seconds * 1000) |}]> ks
  | None => delete key ks
  end.

(** [getRedis()] of [src/application/redis.ts] *)
Definition getRedis : M unit :=
  λ w, if redis_ready w then (Ok tt, w)
       else (Throw (Error "Redis client not initialized. Call initRedis() first."), w).

(** One command sent through the client: rejected when the fault plan
    says so, otherwise run by the server at its current time. *)
Definition command {A} (run : Z → gmap string ZKey → A * gmap string ZKey) : M A :=
  λ w, match redis_faults w with
       | true :: faults =>
           (Throw (Error "redis"), with_redis (redis_keys w) faults w)
       | false :: faults =>
           let '(a, ks) := run (clock w) (redis_keys w) in
           (Ok a, with_redis ks faults w)
       | [] =>
           let '(a, ks) := run (clock w) (redis_keys w) in
           (Ok a, with_redis ks [] w)
       end.

Definition zRemRangeByScore (key : string) (lo hi : Z) : M unit :=
  command (λ now ks, (tt, zRemRangeByScore_at now key lo hi ks)).

Definition zCard (key : string) : M Z :=
  command (λ now ks, (zCard_at now key ks, ks)).

Definition zAdd (key : string) (score : Z) (value : string) : M unit :=
  command (λ now ks, (tt, zAdd_at now key score value ks)).

Definition expire (key : string) (seconds : Z) : M unit :=
  command (λ now ks, (tt, expire_at now key seconds ks)).

End Redis.

(** ** Rate limiter ([@/middleware/rate-limiter]) *)

Module RateLimiter.

Record RateLimitOptions := {
  max : option Z;
  windowInSeconds : option Z;
  keyGenerator : option (Context → string);
  handler : option (Context → Response);
  skip : option (Context → bool);
}.

(** [rateLimiter()] called without options. *)
Definition no_options : RateLimitOptions :=
  {| max := None; windowInSeconds := None; keyGenerator := None;
     handler := None; skip := None |}.

Definition defaultKeyGenerator (c : Context) : string :=
  let forwarded := req_header "x-forwarded-for" c in
  let ip :=
    match Js.nonempty forwarded with
    | Some forwarded => Js.trim (default "" (head (Js.split "," forwarded)))
    | None => default "unknown" (Js.nonempty (req_header "x-real-ip" c))
    end in
  "rate-limit:" +:+ ip.

Definition defaultHandler (c : Context) : Response :=
  json "Too many requests, please try again later."
       HttpStatusCodes.TOO_MANY_REQUESTS.

(** How a path through the middleware ends: [return next()] or
    [return handler(c)].  [next()] is returned without [await], so what
    the later stages throw is not caught by the limiter's [catch]. *)
Inductive Ending :=
  | ReturnNext
  | ReturnResponse (r : Response).

Section WithEnv.
Context `{Env}.

(** The destructured options with their defaults. *)
Definition max_of (options : RateLimitOptions) : Z :=
  default RATE_LIMITER_MAX_REQUESTS (max options).

Definition window_of (options : RateLimitOptions) : Z :=
  default (RATE_LIMITER_WINDOW_MS / 1000) (windowInSeconds options).

Definition key_of (options : RateLimitOptions) : Context → string :=
  default defaultKeyGenerator (keyGenerator options).

Definition handler_of (options : RateLimitOptions) : Context → Response :=
  default defaultHandler (handler options).

(** [skip && (await skip(c))] *)
Definition skipped (options : RateLimitOptions) (c : Context) : bool :=
  match skip options with
  | Some skip => skip c
  | None => false
  end.

(** The member recorded for a request: [`${now}-${Math.random()}`]. *)
Definition member (now : Z) (random : string) : string :=
  pretty now +:+ "-" +:+ random.

Definition rateLimiter (options : RateLimitOptions) : Middleware := λ next,
  let max := max_of options in
  let windowInSeconds := window_of options in
  let keyGenerator := key_of options in
  let handler := handler_of options in
  let* ending :=
    let* c := get_ctx in
    if skipped options c then ret ReturnNext
    else
      Redis.getRedis;;
      let key := keyGenerator c in
      let* now := Date_now in
      let windowStart := now - windowInSeconds * 1000 in
      try_catch
        (Redis.zRemRangeByScore key 0 windowStart;;
         let* requestCount := Redis.zCard key in
         header "X-RateLimit-Limit" (pretty max);;
         header "X-RateLimit-Remaining"
                (pretty (Z.max 0 (max - requestCount - 1)));;
         header "X-RateLimit-Reset"
                (pretty (Js.ceil_div (now + windowInSeconds * 1000) 1000));;
         if bool_decide (max ≤ requestCount) then
           header "Retry-After" (pretty windowInSeconds);;
           let* c := get_ctx in
           ret (ReturnResponse (handler c))
         else
           let* random := Math_random in
           Redis.zAdd key now (member now random);;
           Redis.expire key windowInSeconds;;
           ret ReturnNext)
        (λ _, console_error "Rate limiter error:";; ret ReturnNext) in
  match ending with
  | ReturnNext => next;; ret None
  | ReturnResponse r => ret (Some r)
  end.

Definition strictRateLimiter : Middleware :=
  rateLimiter {| max := Some 10; windowInSeconds := Some 60;
                 keyGenerator := None; handler := None; skip := None |}.

Definition moderateRateLimiter : Middleware :=
  rateLimiter {| max := Some 60; windowInSeconds := Some 60;
                 keyGenerator := None; handler := None; skip := None |}.

Definition lenientRateLimiter : Middleware :=
  rateLimiter {| max := Some 120; windowInSeconds := Some 60;
                 keyGenerator := None; handler := None; skip := None |}.

(** The key generator [rateLimiterByUser] installs. *)
Definition userKeyGenerator (c : Context) : string :=
  match Js.truthy (var_user c) with
  | Some user => "rate-limit:user:" +:+ user_sub user
  | None => defaultKeyGenerator c
  end.

Definition rateLimiterByUser (options : RateLimitOptions) : Middleware :=
  rateLimiter {| max := max options;
                 windowInSeconds := windowInSeconds options;
                 keyGenerator := Some userKeyGenerator;
                 handler := handler options;
                 skip := skip options |}.

Definition globalRateLimiter : Middleware := rateLimiter no_options.

End WithEnv.

End RateLimiter.

(** ** Requests over time *)

(** A request reaching the server: when, with which random draw, and with
    which context. *)
Record Arrival := {
  at_time : Z;
  draw : string;
  request : Context;
}.

Definition arrive (a : Arrival) (w : World) : World :=
  {| ctx := request a; clock := at_time a; random := draw a; db := db w;
     redis_ready := redis_ready w; redis_keys := redis_keys w;
     redis_faults := redis_faults w; console := console w |}.

(** The middleware run on each arrival in turn, in front of a later stage
    that does nothing; the outcomes in order, and the world left behind. *)
Fixpoint serve (mw : Middleware) (arrivals : list Arrival) (w : World)
    : list (Res (option Response)) * World :=
  match arrivals with
  | [] => ([], w)
  | a :: arrivals =>
      let '(r, w) := mw (ret tt) (arrive a w) in
      let '(rs, w) := serve mw arrivals w in
      (r :: rs, w)
  end.

(** ** What one check does, in terms of the Redis server *)

Section Check.
Context `{Env}.

(** The keys after the pruning of a check made in world [w]. *)
Definition pruned (options : RateLimiter.RateLimitOptions) (w : World)
    : gmap string ZKey :=
  Redis.zRemRangeByScore_at (clock w) (RateLimiter.key_of options (ctx w)) 0
    (clock w - RateLimiter.window_of options * 1000) (redis_keys w).

(** The count the check reads after pruning. *)
Definition requestCount (options : RateLimiter.RateLimitOptions) (w : World) : Z :=
  Redis.zCard_at (clock w) (RateLimiter.key_of options (ctx w)) (pruned options w).

(** The keys after an admitted request was recorded. *)
Definition recorded (options : RateLimiter.RateLimitOptions) (w : World)
    : gmap string ZKey :=
  let key := RateLimiter.key_of options (ctx w) in
  Redis.expire_at (clock w) key (RateLimiter.window_of options)
    (Redis.zAdd_at (clock w) key (clock w)
       (RateLimiter.member (clock w) (random w)) (pruned options w)).

(** The context after the three quota headers were set. *)
Definition limit_headers (options : RateLimiter.RateLimitOptions) (w : World)
    : Context :=
  set_header "X-RateLimit-Reset"
    (pretty (Js.ceil_div (clock w + RateLimiter.window_of options * 1000) 1000))
    (set_header "X-RateLimit-Remaining"
       (pretty (Z.max 0 (RateLimiter.max_of options - requestCount options w - 1)))
       (set_header "X-RateLimit-Limit" (pretty (RateLimiter.max_of options))
          (ctx w))).

(** The same with [Retry-After]. *)
Definition denial_headers (options : RateLimiter.RateLimitOptions) (w : World)
    : Context :=
  set_header "Retry-After" (pretty (RateLimiter.window_of options))
    (limit_headers options w).


(** The requests are for one key, are not skipped, and arrive within the
    window that ends at [t_end]. *)
Definition in_one_window (options : RateLimiter.RateLimitOptions) (key : string)
    (t_end : Z) (arrivals : list Arrival) : Prop :=
  ∀ a, a ∈ arrivals →
    RateLimiter.key_of options (request a) = key ∧
    RateLimiter.skipped options (request a) = false ∧
    t_end - RateLimiter.window_of options * 1000 < at_time a ≤ t_end.

End Check.

(** The entries under [key] that a check at time [now] counts: those the
    server holds and the pruning leaves. *)
Definition counted (seconds now : Z) (key : string) (ks : gmap string ZKey)
    : gmap string Z :=
  filter (λ e, ¬ Redis.in_range 0 (now - seconds * 1000) e)
         (Redis.members now key ks).

(** No check made during the window that ends at [t_end] would count an
    entry of the key. *)
Definition idle (seconds t_end : Z) (key : string) (ks : gmap string ZKey) : Prop :=
  ∀ t, t_end - seconds * 1000 < t ≤ t_end → counted seconds t key ks = ∅.

(** The entries of the admitted requests, added to [entries]. *)
Definition record_all (entries : gmap string Z) (arrivals : list Arrival)
    : gmap string Z :=
  foldl (λ entries a,
           <[RateLimiter.member (at_time a) (draw a) := at_time a]> entries)
        entries arrivals.

(** The entries under [key] that the server holds at time [now] and whose
    score is later than the start of the window. *)
Definition in_window (seconds now : Z) (key : string) (ks : gmap string ZKey)
    : gmap string Z :=
  filter (λ e, now - seconds * 1000 < e.2) (Redis.members now key ks).

(** The same with the start of the window included, as the
    specification words it ("timestamp >= now - windowDuration"). *)
Definition in_window_as_stated (seconds now : Z) (key : string)
    (ks : gmap string ZKey) : gmap string Z :=
  filter (λ e, now - seconds * 1000 ≤ e.2) (Redis.members now key ks).

(** ** A small implementation of the [hono/jwt] interface

    Tokens are the binary numerals of the code of (payload, secret); it
    serves to run the middleware on concrete requests. *)

Module ModelJwt.

Fixpoint bits (p : positive) : string :=
  match p with
  | xH => EmptyString
  | xO p => String "0" (bits p)
  | xI p => String "1" (bits p)
  end.

Fixpoint unbits (s : string) : option positive :=
  match s with
  | EmptyString => Some xH
  | String a s =>
      match unbits s with
      | Some p =>
          if decide (a = "0"%char) then Some (xO p)
          else if decide (a = "1"%char) then Some (xI p)
          else None
      | None => None
      end
  end.

Definition fields : Type := string * Z * option string * string.

Definition model_sign (payload : JwtPayload) (secret : string) : string :=
  bits (encode ((sub payload, exp payload, type payload, secret) : fields)).

Definition model_verify (token secret : string) (now : Z) : JwtError + JwtPayload :=
  match unbits token ≫= (decode : positive → option fields) with
  | Some (s, e, t, k) =>
      if decide (k = secret) then
        if bool_decide (e ≤ now / 1000) then inl JwtTokenExpired
        else inr {| sub := s; exp := e; type := t |}
      else inl JwtTokenSignatureMismatched
  | None => inl JwtTokenInvalid
  end.

Definition lib : JwtLib :=
  {| sign := model_sign; verify := model_verify |}.

End ModelJwt.

(** ** Concrete requests used below *)

Module Scenario.

Definition env : Env :=
  {| RATE_LIMITER_MAX_REQUESTS := 100;
     RATE_LIMITER_WINDOW_MS := 60000;
     JWT_SECRET := "access-secret";
     JWT_EXPIRES_IN := 300000;
     REFRESH_TOKEN_SECRET := "refresh-secret";
     REFRESH_TOKEN_EXPIRES_IN := 604800000 |}.

Definition anonymous : Context :=
  {| req_headers := ∅; var_jwtPayload := Js.Undefined;
     var_user := Js.Undefined; res_headers := ∅ |}.

Definition with_request_header (name value : string) (c : Context) : Context :=
  {| req_headers := <[name := value]> (req_headers c);
     var_jwtPayload := var_jwtPayload c; var_user := var_user c;
     res_headers := res_headers c |}.

Definition world (c : Context) (now : Z) : World :=
  {| ctx := c; clock := now; random := "0.5"; db := ∅;
     redis_ready := true; redis_keys := ∅; redis_faults := [];
     console := [] |}.

Definition with_db (users : gmap string UserRow) (w : World) : World :=
  {| ctx := ctx w; clock := clock w; random := random w; db := users;
     redis_ready := redis_ready w; redis_keys := redis_keys w;
     redis_faults := redis_faults w; console := console w |}.

(** A request whose token was accepted for subject [id]. *)
Definition authenticated (id : string) : Context :=
  set_jwtPayload (Js.Value {| sub := id; exp := 1700000300; type := None |})
                 anonymous.

(** Scenario C: [report.view] through the role [analyst] and as a direct
    grant; the role [editor] grants [post.publish]. *)
Definition analyst : UserRow :=
  {| user_roles :=
       [ {| role_name := "analyst"; role_permissions := ["report.view"] |};
         {| role_name := "editor";
            role_permissions := ["post.publish"; "report.view"] |} ];
     user_permissions := ["report.view"] |}.

Definition analyst_world : World :=
  with_db {[ "u1" := analyst ]} (world (authenticated "u1") 1700000000000).

(** Valid claims for a subject that is not in the table. *)
Definition ghost_world : World :=
  world (authenticated "ghost") 1700000000000.


(** One secret for both kinds of token. *)
Definition shared_secret_env : Env :=
  {| RATE_LIMITER_MAX_REQUESTS := 100;
     RATE_LIMITER_WINDOW_MS := 60000;
     JWT_SECRET := "secret";
     JWT_EXPIRES_IN := 300000;
     REFRESH_TOKEN_SECRET := "secret";
     REFRESH_TOKEN_EXPIRES_IN := 604800000 |}.

(** A request carrying a token that [verify] rejects. *)
Definition bad_token_world : World :=
  world (with_request_header "authorization" "Bearer not-a-jwt" anonymous)
        1700000000000.

(** One request per second. *)
Definition one_per_second : RateLimiter.RateLimitOptions :=
  {| RateLimiter.max := Some 1; RateLimiter.windowInSeconds := Some 1;
     RateLimiter.keyGenerator := None; RateLimiter.handler := None;
     RateLimiter.skip := None |}.

(** Scenario A: ten requests per minute. *)
Definition strict : RateLimiter.RateLimitOptions :=
  {| RateLimiter.max := Some 10; RateLimiter.windowInSeconds := Some 60;
     RateLimiter.keyGenerator := None; RateLimiter.handler := None;
     RateLimiter.skip := None |}.

(** The [n] requests of a client, one every second from [start] on. *)
Fixpoint burst (n : nat) (start : Z) : list Arrival :=
  match n with
  | O => []
  | S n =>
      {| at_time := start; draw := pretty start; request := anonymous |}
      :: burst n (start + 1000)
  end.


(** A later stage that leaves a trace of having run. *)
Definition protected_operation : M unit :=
  console_error "protected operation ran".

End Scenario.

(** ** More of the code

    The functions below are further parts of the repository: the other
    helpers of [src/lib/utils.ts], the life cycle of the Redis client, and
    the user and auth services that call the token helpers. *)

(** *** Text *)

Module Text.

(** The text is made of one-byte (ASCII) characters. *)
Definition is_ascii (s : string) : bool :=
  forallb (λ a, (nat_of_ascii a <? 128)%nat) (list_ascii_of_string s).

(** [toUpperCase] on one character, for the one-byte characters. *)
Definition toUpperCase_ascii (a : ascii) : ascii :=
  let n := nat_of_ascii a in
  if ((97 <=? n) && (n <=? 122))%nat then ascii_of_nat (n - 32) else a.

(** [pieces.join(sep)] *)
Fixpoint join (sep : string) (pieces : list string) : string :=
  match pieces with
  | [] => EmptyString
  | piece :: rest =>
      match rest with
      | [] => piece
      | _ :: _ => piece +:+ sep +:+ join sep rest
      end
  end.

(** [word.charAt(0).toUpperCase() + word.slice(1)] *)
Definition capitalize (word : string) : string :=
  match word with
  | EmptyString => EmptyString
  | String a rest => String (toUpperCase_ascii a) rest
  end.

(** [toTitleCase] of [src/lib/utils.ts]. *)
Definition toTitleCase (str : string) : string :=
  join " " (map capitalize (Js.split "-" str)).

End Text.

(** *** The Redis client ([@/application/redis]) *)

Module RedisClient.

Definition with_ready (ready : bool) (w : World) : World :=
  {| ctx := ctx w; clock := clock w; random := random w; db := db w;
     redis_ready := ready; redis_keys := redis_keys w;
     redis_faults := redis_faults w; console := console w |}.

(** [client.connect()] and [client.quit()]: the server may reject them;
    they change no key. *)
Definition connect : M unit := Redis.command (λ _ ks, (tt, ks)).

Definition quit : M unit := Redis.command (λ _ ks, (tt, ks)).

(** The client is stored before it connects; the listeners registered in
    between only write log lines. *)
Definition initRedis : M unit :=
  λ w, if redis_ready w then (Ok tt, w)
       else connect (with_ready true w).

(** The client is dropped after [quit()] has returned. *)
Definition closeRedis : M unit :=
  λ w, if redis_ready w then (quit;; (λ w, (Ok tt, with_ready false w))) w
       else (Ok tt, w).

End RedisClient.

(** *** User service ([src/modules/users/users.service.ts]) *)

(** [Bun.password.verify(password, hash)] *)
Class BunPassword := {
  password_verify : string → string → bool;
}.

Module UserService.

(** The rows that [selectUserFields] selects, with the join rows
    ([ur.role], [rp.permission], [up.permission]) followed through. *)
Record Permission := {
  permission_id : string;
  permission_name : string;
  permission_description : option string;
}.

Record Role := {
  role_id : string;
  name_of_role : string;
  role_description : option string;
  permissions_of_role : list Permission;
}.

(** [UserWithPassword]; dates are milliseconds. *)
Record User := {
  id : string;
  name : string;
  email : string;
  password : string;
  email_verified_at : option Z;
  avatar : option string;
  created_at : Z;
  updated_at : Z;
  roles_of_user : list Role;
  permissions_of_user : list Permission;
}.

Record RoleSummary := {
  summary_id : string;
  summary_name : string;
  summary_description : option string;
}.

(** [DataUserSchema] *)
Record DataUser := {
  data_id : string;
  data_name : string;
  data_email : string;
  data_email_verified_at : option string;
  data_avatar : option string;
  roles : list RoleSummary;
  permissions : list Permission;
  data_created_at : string;
  data_updated_at : string;
}.

(** [Meta] of [src/lib/types.ts] *)
Record Meta := {
  total : Z;
  page : Z;
  per_page : Z;
  total_page : Z;
  has_next_page : bool;
  has_prev_page : bool;
}.

(** [ParamsUserSchema] *)
Record Params := {
  search : option string;
  param_page : option Z;
  param_per_page : option Z;
  sort : option string;
  order : option string;
}.

(** The database as the services read it: the table, [toISOString] of
    the dates it holds, and the rows that match a search, in the order
    asked for ([where] and [orderBy] are the database's work). *)
Class Database := {
  tb_user : list User;
  toISOString : Z → string;
  matching_users : option string → string → string → list User;
}.

(** The rows the role and permission middleware selects from a user. *)
Definition selected_names (user : User) : UserRow :=
  {| user_roles :=
       map (λ role, {| role_name := name_of_role role;
                       role_permissions :=
                         map permission_name (permissions_of_role role) |})
           (roles_of_user user);
     user_permissions := map permission_name (permissions_of_user user) |}.

(** [new Map(entries)]: a key that is already present keeps its place and
    takes the new value. *)
Fixpoint map_set (entries : list Permission) (p : Permission) : list Permission :=
  match entries with
  | [] => [p]
  | q :: entries' =>
      if decide (permission_id q = permission_id p) then p :: entries'
      else q :: map_set entries' p
  end.

(** [Array.from(new Map(ps.map((p) => [p.id, p])).values())] *)
Definition unique_by_id (ps : list Permission) : list Permission :=
  fold_left map_set ps [].

Section WithDatabase.
Context `{Database}.

Definition transformUser (user : User) : DataUser :=
  let rolePermissions := flat_map permissions_of_role (roles_of_user user) in
  let directPermissions := permissions_of_user user in
  let allPermissions := rolePermissions ++ directPermissions in
  let uniquePermissions := unique_by_id allPermissions in
  {| data_id := id user;
     data_name := name user;
     data_email := email user;
     data_email_verified_at := toISOString <$> email_verified_at user;
     data_avatar := avatar user;
     roles :=
       map (λ role, {| summary_id := role_id role;
                       summary_name := name_of_role role;
                       summary_description := role_description role |})
           (roles_of_user user);
     permissions := uniquePermissions;
     data_created_at := toISOString (created_at user);
     data_updated_at := toISOString (updated_at user) |}.

(** [page], [per_page] are whole numbers (the query schema asks for
    [page >= 1] and [1 <= per_page <= 100]). *)
Definition getAll (params : Params) : M (list DataUser * Meta) :=
  let page := default 1 (param_page params) in
  let per_page := default 10 (param_per_page params) in
  let sort := default "created_at" (sort params) in
  let order := default "desc" (order params) in
  let skip := (page - 1) * per_page in
  let matching := matching_users (Js.nonempty (search params)) sort order in
  let total := Z.of_nat (length matching) in
  let users := take (Z.to_nat per_page) (drop (Z.to_nat skip) matching) in
  let total_page := Js.ceil_div total per_page in
  let has_next_page := bool_decide (page < total_page) in
  let has_prev_page := bool_decide (page > 1) in
  ret (map transformUser users,
       {| total := total; page := page; per_page := per_page;
          total_page := total_page; has_next_page := has_next_page;
          has_prev_page := has_prev_page |}).

Definition findById (user_id : string) : M DataUser :=
  match List.find (λ user, bool_decide (id user = user_id)) tb_user with
  | None => throw (HTTPException HttpStatusCodes.NOT_FOUND "User not found")
  | Some user => ret (transformUser user)
  end.

Definition findByEmail (address : string) : M (option User) :=
  ret (List.find (λ user, bool_decide (email user = address)) tb_user).

End WithDatabase.
End UserService.

(** *** Auth service ([src/modules/auth/auth.service.ts]) *)

Module AuthFlow.

(** [LoginDataSchema] *)
Record LoginData := {
  user : UserService.DataUser;
  access_token : string;
  refresh_token : string;
}.

Section WithLibraries.
Context `{Env} `{JwtLib} `{BunPassword} `{UserService.Database}.

(** [await verifyPassword(password, hash)] of [src/lib/utils.ts] *)
Definition verifyPassword (password hash : string) : M bool :=
  ret (password_verify password hash).

Definition invalid_credentials {A} : M A :=
  throw (HTTPException HttpStatusCodes.UNAUTHORIZED "Invalid email or password").

(** [findById] returns an object or throws, so the check
    [!transformedUser] that follows it in the source never fires. *)
Definition login (email password : string) : M LoginData :=
  let* foundUser := UserService.findByEmail email in
  match foundUser with
  | None => invalid_credentials
  | Some foundUser =>
      let* validatePassword :=
        verifyPassword password (UserService.password foundUser) in
      if negb validatePassword then invalid_credentials
      else
        let* accessToken := Utils.generateAccessToken (UserService.id foundUser) in
        let* refreshToken := Utils.generateRefreshToken (UserService.id foundUser) in
        let* transformedUser := UserService.findById (UserService.id foundUser) in
        ret {| user := transformedUser;
               access_token := accessToken;
               refresh_token := refreshToken |}
  end.

(** In [logout] too the check after [findById] never fires. *)
Definition logout (id_user : string) : M UserService.DataUser :=
  let* foundUser := UserService.findById id_user in
  ret foundUser.

Definition profile (id_user : string) : M UserService.DataUser :=
  let* foundUser := UserService.findById id_user in
  ret foundUser.

End WithLibraries.
End AuthFlow.

(** The same query for another page, and the rows a call returned. *)
Definition on_page (p : Z) (params : UserService.Params) : UserService.Params :=
  {| UserService.search := UserService.search params;
     UserService.param_page := Some p;
     UserService.param_per_page := UserService.param_per_page params;
     UserService.sort := UserService.sort params;
     UserService.order := UserService.order params |}.

Definition data_of {A B} (outcome : Res (list A * B) * World) : list A :=
  match outcome.1 with
  | Ok (data, _) => data
  | Throw _ => []
  end.

(** *** Concrete users and tokens used below *)

Module Sample.

Definition report_view : UserService.Permission :=
  {| UserService.permission_id := "p1";
     UserService.permission_name := "report.view";
     UserService.permission_description := None |}.

Definition post_publish : UserService.Permission :=
  {| UserService.permission_id := "p2";
     UserService.permission_name := "post.publish";
     UserService.permission_description := Some "Publish a post" |}.

Definition analyst_role : UserService.Role :=
  {| UserService.role_id := "r1"; UserService.name_of_role := "analyst";
     UserService.role_description := None;
     UserService.permissions_of_role := [report_view] |}.

Definition editor_role : UserService.Role :=
  {| UserService.role_id := "r2"; UserService.name_of_role := "editor";
     UserService.role_description := None;
     UserService.permissions_of_role := [post_publish; report_view] |}.

(** The user of [Scenario.analyst] with all the columns. *)
Definition ana : UserService.User :=
  {| UserService.id := "u1"; UserService.name := "Ana";
     UserService.email := "ana@example.com";
     UserService.password := "hash-of-correct horse";
     UserService.email_verified_at := Some 1690000000000;
     UserService.avatar := None;
     UserService.created_at := 1680000000000;
     UserService.updated_at := 1690000000000;
     UserService.roles_of_user := [analyst_role; editor_role];
     UserService.permissions_of_user := [report_view] |}.

Definition bo : UserService.User :=
  {| UserService.id := "u2"; UserService.name := "Bo";
     UserService.email := "bo@example.com";
     UserService.password := "hash-of-battery staple";
     UserService.email_verified_at := None;
     UserService.avatar := None;
     UserService.created_at := 1685000000000;
     UserService.updated_at := 1685000000000;
     UserService.roles_of_user := [];
     UserService.permissions_of_user := [] |}.

Definition cy : UserService.User :=
  {| UserService.id := "u3"; UserService.name := "Cy";
     UserService.email := "cy@example.com";
     UserService.password := "hash-of-tr0ub4dor";
     UserService.email_verified_at := None;
     UserService.avatar := None;
     UserService.created_at := 1686000000000;
     UserService.updated_at := 1686000000000;
     UserService.roles_of_user := [analyst_role];
     UserService.permissions_of_user := [] |}.

(** A table of three users; every query matches all of them, newest
    first. *)
Definition database : UserService.Database :=
  {| UserService.tb_user := [ana; bo; cy];
     UserService.toISOString := pretty;
     UserService.matching_users := λ _ _ _, [cy; bo; ana] |}.

Definition passwords : BunPassword :=
  {| password_verify := λ password hash,
       bool_decide (hash = "hash-of-" +:+ password) |}.

(** Two users per page. *)
Definition by_two (p : Z) : UserService.Params :=
  {| UserService.search := None; UserService.param_page := Some p;
     UserService.param_per_page := Some 2; UserService.sort := None;
     UserService.order := None |}.

(** [Scenario.analyst] after the permission [post.delete] was granted
    directly. *)
Definition promoted : UserRow :=
  {| user_roles := user_roles Scenario.analyst;
     user_permissions := "post.delete" :: user_permissions Scenario.analyst |}.

Definition promoted_world : World :=
  Scenario.with_db {[ "u1" := promoted ]}
    (Scenario.world (Scenario.authenticated "u1") 1700000000000).

(** The moment the tokens below are issued, and a minute later. *)
Definition issued : World := Scenario.world Scenario.anonymous 1700000000000.

Definition access_token : string :=
  ModelJwt.model_sign {| sub := "u1"; exp := 1700000300; type := None |}
                      "access-secret".

Definition refresh_token : string :=
  ModelJwt.model_sign {| sub := "u1"; exp := 1700604800; type := Some "refresh" |}
                      "refresh-secret".

Definition bearer (token : string) : World :=
  Scenario.world
    (Scenario.with_request_header "authorization" ("Bearer " +:+ token)
                                  Scenario.anonymous)
    1700000060000.

(** A window of half a second, and a limit of one request per window. *)
Definition subsecond_env : Env :=
  {| RATE_LIMITER_MAX_REQUESTS := 100;
     RATE_LIMITER_WINDOW_MS := 500;
     JWT_SECRET := "access-secret";
     JWT_EXPIRES_IN := 300000;
     REFRESH_TOKEN_SECRET := "refresh-secret";
     REFRESH_TOKEN_EXPIRES_IN := 604800000 |}.

Definition one_at_a_time : RateLimiter.RateLimitOptions :=
  {| RateLimiter.max := Some 1; RateLimiter.windowInSeconds := None;
     RateLimiter.keyGenerator := None; RateLimiter.handler := None;
     RateLimiter.skip := None |}.

(** A server that holds entries of another client. *)
Definition other_client : gmap string ZKey :=
  {[ "rate-limit:198.51.100.1" :=
       {| zmembers := {[ "4000-0.25" := 4000 ]}; zexpire := Some 64000 |} ]}.

End Sample.

(** *** Reading middleware *)

(** A middleware that only decides: it hands the unchanged world to the
    later stages, or throws an HTTP exception with one of the given
    statuses and leaves the world as it was. *)
Definition only_decides (codes : list Z) (mw : Middleware) : Prop :=
  ∀ next w,
    mw next w = (next;; ret None) w ∨
    ∃ code message,
      code ∈ codes ∧ mw next w = (Throw (HTTPException code message), w).

(** * Properties *)

(** ** Computations *)

Lemma bind_ok {A B} (m : M A) (k : A → M B) w a w' :
  m w = (Ok a, w') → bind m k w = k a w'.
Proof. intros E. unfold bind. by rewrite E. Qed.

Lemma bind_throw {A B} (m : M A) (k : A → M B) w e w' :
  m w = (Throw e, w') → bind m k w = (Throw e, w').
Proof. intros E. unfold bind. by rewrite E. Qed.

(** ** [new Set] *)

Lemma set_add_elem seen x y : y ∈ Js.set_add seen x ↔ y ∈ seen ∨ y = x.
Proof.
  induction seen as [|z seen IH]; simpl.
  - rewrite list_elem_of_singleton. split; [by right|]. intros [H|H]; [|done].
    by apply elem_of_nil in H.
  - destruct (decide (z = x)) as [->|Hne].
    + split; [by left|]. intros [H | ->]; [done|]. by left.
    + rewrite !elem_of_cons, IH. tauto.
Qed.

Lemma set_add_NoDup seen x : NoDup seen → NoDup (Js.set_add seen x).
Proof.
  induction seen as [|z seen IH]; simpl; intros Hnd.
  - apply NoDup_singleton.
  - destruct (decide (z = x)) as [->|Hne]; [done|].
    apply NoDup_cons in Hnd as [Hz Hnd]. apply NoDup_cons. split; [|by apply IH].
    rewrite set_add_elem. intros [H|H]; [done|]. by apply Hne.
Qed.

Lemma fold_set_add_elem xs seen y :
  y ∈ fold_left Js.set_add xs seen ↔ y ∈ seen ∨ y ∈ xs.
Proof.
  revert seen. induction xs as [|x xs IH]; intros seen; simpl.
  - split; [by left|]. intros [H|H]; [done|]. by apply elem_of_nil in H.
  - rewrite IH, set_add_elem, elem_of_cons. tauto.
Qed.

Lemma fold_set_add_NoDup xs seen :
  NoDup seen → NoDup (fold_left Js.set_add xs seen).
Proof.
  revert seen. induction xs as [|x xs IH]; intros seen Hnd; simpl; [done|].
  apply IH. by apply set_add_NoDup.
Qed.

Lemma set_of_elem xs y : y ∈ Js.set_of xs ↔ y ∈ xs.
Proof.
  unfold Js.set_of. rewrite fold_set_add_elem. split; [|by right].
  intros [H|H]; [|done]. by apply elem_of_nil in H.
Qed.

Lemma set_of_NoDup xs : NoDup (Js.set_of xs).
Proof. apply fold_set_add_NoDup, NoDup_nil_2. Qed.

(** An element of a duplicate-free list occurs in it once. *)
Lemma NoDup_once (l : list string) x :
  NoDup l → x ∈ l → length (filter (λ y, y = x) l) = 1%nat.
Proof.
  induction l as [|z l IH]; intros Hnd Hin; [by apply elem_of_nil in Hin|].
  apply NoDup_cons in Hnd as [Hz Hnd].
  destruct (decide (z = x)) as [->|Hne].
  - rewrite filter_cons_True by done. simpl. f_equal.
    apply length_zero_iff_nil.
    destruct (filter (λ y, y = x) l) as [|y l'] eqn:E; [done|].
    assert (Hy : y ∈ filter (λ y, y = x) l) by (rewrite E; apply elem_of_cons; by left).
    apply list_elem_of_filter in Hy as [-> Hy]. done.
  - rewrite filter_cons_False by done. apply IH; [done|].
    apply elem_of_cons in Hin as [->|Hin]; done.
Qed.

(** ** Role and permission middleware *)

Section RolePermissionFacts.
Import RolePermission.

Lemma load_user_found w claims user :
  var_jwtPayload (ctx w) = Js.Value claims →
  db w !! sub claims = Some user →
  load_user w = (Ok user, w).
Proof.
  intros Hp Hu. unfold load_user, bind, get_ctx, findUnique.
  rewrite Hp. simpl. by rewrite Hu.
Qed.

Lemma load_user_missing w claims :
  var_jwtPayload (ctx w) = Js.Value claims →
  db w !! sub claims = None →
  load_user w = (Throw (HTTPException 404 "User not found"), w).
Proof.
  intros Hp Hu. unfold load_user, bind, get_ctx, findUnique.
  rewrite Hp. simpl. by rewrite Hu.
Qed.

Lemma includes_true xs x : Js.includes xs x = true ↔ x ∈ xs.
Proof. unfold Js.includes. apply bool_decide_eq_true. Qed.

Lemma includes_false xs x : Js.includes xs x = false ↔ x ∉ xs.
Proof. unfold Js.includes. apply bool_decide_eq_false. Qed.

Lemma allPermissions_elem user name :
  name ∈ allPermissions user ↔
  name ∈ rolePermissions user ∨ name ∈ directPermissions user.
Proof. unfold allPermissions. by rewrite set_of_elem, elem_of_app. Qed.

(** A permission is granted through a role exactly when one of the
    user's roles lists it. *)
Lemma rolePermissions_elem user name :
  name ∈ rolePermissions user ↔
  ∃ role, role ∈ user_roles user ∧ name ∈ role_permissions role.
Proof.
  unfold rolePermissions. rewrite list_elem_of_In, in_flat_map.
  split; intros (r & Hr & Hn); exists r; by rewrite ?list_elem_of_In in *.
Qed.

End RolePermissionFacts.

(** C2, as stated, fails: with valid claims for a subject that is not in
    the table, [requireRole] does not reject with status 403 (it throws
    the 404 "User not found"). *)
Lemma missing_subject_is_not_forbidden :
  ¬ rejected_with 403
      (RolePermission.requireRole "admin" (ret tt) Scenario.ghost_world).1.
Proof. intros [message Hm]. vm_compute in Hm. discriminate Hm. Qed.

(** C2, amended: with valid claims whose subject is not in the relational
    store, each of the six authorization middleware throws the HTTP
    exception 404 "User not found", leaves the world as it was, and does
    not run the later stages. *)
Theorem missing_subject_is_not_found w claims next :
  var_jwtPayload (ctx w) = Js.Value claims →
  db w !! sub claims = None →
  let not_found := (Throw (HTTPException 404 "User not found"), w) in
  (∀ roleName, RolePermission.requireRole roleName next w = not_found) ∧
  (∀ roleNames, RolePermission.requireAnyRole roleNames next w = not_found) ∧
  (∀ roleNames, RolePermission.requireAllRoles roleNames next w = not_found) ∧
  (∀ name, RolePermission.requirePermission name next w = not_found) ∧
  (∀ names, RolePermission.requireAnyPermission names next w = not_found) ∧
  (∀ names, RolePermission.requireAllPermissions names next w = not_found).
Proof.
  intros Hp Hu not_found.
  pose proof (load_user_missing w claims Hp Hu) as Hl.
  repeat split; intros; by apply bind_throw.
Qed.

Lemma missing_subject_is_not_found_witness :
  RolePermission.requirePermission "role.read" (ret tt) Scenario.ghost_world
  = (Throw (HTTPException 404 "User not found"), Scenario.ghost_world).
Proof.
  refine (proj1 (proj2 (proj2 (proj2
    (missing_subject_is_not_found Scenario.ghost_world
       {| sub := "ghost"; exp := 1700000300; type := None |} (ret tt) _ _)))) "role.read");
    reflexivity.
Defined.

(** C6: for a request with valid claims of an existing subject, whatever
    roles the subject holds, [requireAllRoles([])] lets the request through
    to the later stages and [requireAnyRole([])] throws 403 "Access denied"
    without running them. *)
Theorem empty_role_lists w claims user next :
  var_jwtPayload (ctx w) = Js.Value claims →
  db w !! sub claims = Some user →
  RolePermission.requireAllRoles [] next w = (next;; ret None) w ∧
  RolePermission.requireAnyRole [] next w
    = (Throw (HTTPException 403 "Access denied"), w).
Proof.
  intros Hp Hu. pose proof (load_user_found w claims user Hp Hu) as Hl.
  split.
  - unfold RolePermission.requireAllRoles. by rewrite (bind_ok _ _ _ _ _ Hl).
  - unfold RolePermission.requireAnyRole. rewrite (bind_ok _ _ _ _ _ Hl).
    assert (existsb (λ ur, Js.includes [] (role_name ur)) (user_roles user) = false) as ->.
    { induction (user_roles user) as [|r rs IH]; [done|].
      cbn [existsb]. rewrite IH, orb_false_r.
      apply includes_false, not_elem_of_nil. }
    done.
Qed.

Lemma empty_role_lists_witness :
  RolePermission.requireAllRoles [] (ret tt) Scenario.analyst_world
    = ((ret tt);; ret None) Scenario.analyst_world ∧
  RolePermission.requireAnyRole [] (ret tt) Scenario.analyst_world
    = (Throw (HTTPException 403 "Access denied"), Scenario.analyst_world).
Proof.
  apply (empty_role_lists Scenario.analyst_world
           {| sub := "u1"; exp := 1700000300; type := None |} Scenario.analyst);
    reflexivity.
Defined.

(** C4: the effective permissions of a user are the role-derived and the
    directly granted permission names without repetition: a name granted
    through a role or directly (however many times) occurs exactly once,
    and [requirePermission(name)] lets the request through exactly when
    [name] is among them, throwing 403 "Access denied" otherwise. *)
Theorem effective_permissions w claims user :
  var_jwtPayload (ctx w) = Js.Value claims →
  db w !! sub claims = Some user →
  let effective := RolePermission.allPermissions user in
  NoDup effective ∧
  (∀ name, name ∈ effective ↔
     (∃ role, role ∈ user_roles user ∧ name ∈ role_permissions role)
     ∨ name ∈ user_permissions user) ∧
  (∀ name,
     (∃ role, role ∈ user_roles user ∧ name ∈ role_permissions role)
     ∨ name ∈ user_permissions user →
     length (filter (λ granted, granted = name) effective) = 1%nat) ∧
  (∀ name next,
     (name ∈ effective →
      RolePermission.requirePermission name next w = (next;; ret None) w) ∧
     (name ∉ effective →
      RolePermission.requirePermission name next w
        = (Throw (HTTPException 403 "Access denied"), w))).
Proof.
  intros Hp Hu effective.
  pose proof (load_user_found w claims user Hp Hu) as Hl.
  assert (Hel : ∀ name, name ∈ effective ↔
     (∃ role, role ∈ user_roles user ∧ name ∈ role_permissions role)
     ∨ name ∈ user_permissions user).
  { intros name. unfold effective.
    by rewrite allPermissions_elem, rolePermissions_elem. }
  split; [apply set_of_NoDup|]. split; [exact Hel|]. split.
  - intros name Hn. apply NoDup_once; [apply set_of_NoDup|]. by apply Hel.
  - intros name next. unfold RolePermission.requirePermission.
    rewrite (bind_ok _ _ _ _ _ Hl). fold effective. split; intros Hn.
    + apply includes_true in Hn. by rewrite Hn.
    + apply includes_false in Hn. by rewrite Hn.
Qed.

Lemma effective_permissions_witness :
  length (filter (λ granted, granted = "report.view")
                 (RolePermission.allPermissions Scenario.analyst)) = 1%nat.
Proof.
  refine (proj1 (proj2 (proj2
    (effective_permissions Scenario.analyst_world
       {| sub := "u1"; exp := 1700000300; type := None |} Scenario.analyst _ _)))
    "report.view" _); [reflexivity | reflexivity |].
  right. apply elem_of_cons. by left.
Defined.

(** ** Tokens *)

Lemma unbits_bits p : ModelJwt.unbits (ModelJwt.bits p) = Some p.
Proof. induction p as [p IH|p IH|]; simpl; [by rewrite IH..|done]. Qed.

(** The model implementation keeps the library's promise. *)
Lemma model_lawful : @JwtLawful ModelJwt.lib.
Proof.
  constructor. intros payload secret secret' now decoded. simpl.
  unfold ModelJwt.model_verify, ModelJwt.model_sign.
  rewrite unbits_bits. simpl. rewrite decode_encode.
  destruct payload as [s e t]. simpl.
  destruct (decide (secret = secret')); [|discriminate].
  case_bool_decide; [discriminate|]. by intros [= <-].
Qed.

Section TokenFacts.
Context `{Env} `{JwtLib}.

Lemma verifyAccessToken_rejected token w cause :
  verify token JWT_SECRET (clock w) = inl cause →
  Utils.verifyAccessToken token w = (Ok None, w).
Proof.
  intros Hv. unfold Utils.verifyAccessToken, try_catch, bind, Utils.await_verify.
  by rewrite Hv.
Qed.

Lemma verifyAccessToken_accepted token w decoded :
  verify token JWT_SECRET (clock w) = inr decoded →
  Utils.verifyAccessToken token w = (Ok (Some decoded), w).
Proof.
  intros Hv. unfold Utils.verifyAccessToken, try_catch, bind, Utils.await_verify.
  by rewrite Hv.
Qed.

Lemma verifyRefreshToken_rejected token w cause :
  verify token REFRESH_TOKEN_SECRET (clock w) = inl cause →
  Utils.verifyRefreshToken token w = (Ok None, w).
Proof.
  intros Hv. unfold Utils.verifyRefreshToken, try_catch, bind, Utils.await_verify.
  by rewrite Hv.
Qed.

Lemma verifyRefreshToken_decoded token w decoded :
  verify token REFRESH_TOKEN_SECRET (clock w) = inr decoded →
  Utils.verifyRefreshToken token w
  = (Ok (if bool_decide (type decoded = Some "refresh") then Some decoded else None), w).
Proof.
  intros Hv. unfold Utils.verifyRefreshToken, try_catch, bind, Utils.await_verify.
  rewrite Hv. by case_bool_decide.
Qed.

(** The middleware answers 401 itself when the header is missing or does
    not start with "Bearer ". *)
Lemma authMiddleware_no_header next w :
  req_header "authorization" (ctx w) = None →
  Auth.authMiddleware next w = (Ok (Some Auth.invalid_or_expired), w).
Proof.
  intros Hh. unfold Auth.authMiddleware, bind, get_ctx. by rewrite Hh.
Qed.

Lemma authMiddleware_not_bearer next w auth :
  req_header "authorization" (ctx w) = Some auth →
  Js.startsWith "Bearer " auth = false →
  Auth.authMiddleware next w = (Ok (Some Auth.invalid_or_expired), w).
Proof.
  intros Hh Hb. unfold Auth.authMiddleware, bind, get_ctx. by rewrite Hh, Hb.
Qed.

(** With a token that [verify] rejects, the middleware stores [null] as
    the payload and calls [next()]. *)
Lemma authMiddleware_rejected_token next w auth token cause :
  req_header "authorization" (ctx w) = Some auth →
  Js.startsWith "Bearer " auth = true →
  Js.split " " auth !! 1%nat = Some token →
  verify token JWT_SECRET (clock w) = inl cause →
  Auth.authMiddleware next w
  = try_catch (next;; ret None) (λ _, ret (Some Auth.invalid_or_expired))
              (with_ctx (set_jwtPayload Js.Null (ctx w)) w).
Proof.
  intros Hh Hb Ht Hv. unfold Auth.authMiddleware.
  unfold bind at 1. unfold get_ctx at 1. rewrite Hh, Hb, Ht. simpl.
  unfold try_catch, bind. rewrite (verifyAccessToken_rejected _ _ _ Hv).
  reflexivity.
Qed.

End TokenFacts.

(** C1, on the code: a request whose bearer token [verify] rejects is not
    answered by [authMiddleware]; [verifyAccessToken] turns the rejection
    into [null], the middleware stores it as the payload and the next stage
    runs. *)
Theorem rejected_token_reaches_next_stage :
  let after :=
    @Auth.authMiddleware Scenario.env ModelJwt.lib
      Scenario.protected_operation Scenario.bad_token_world in
  after.1 = Ok None ∧
  var_jwtPayload (ctx after.2) = Js.Null ∧
  console after.2 = ["protected operation ran"].
Proof. vm_compute. done. Qed.

(** C8: [verifyRefreshToken] returns no claims when [verify] rejects the
    token (malformed, wrong signature, expired), and also when the decoded
    claims do not carry the kind "refresh"; an access token, which is
    signed without a kind, is therefore never accepted, whatever the two
    secrets are and whether or not it has expired; [refresh] then throws
    401 "Invalid refresh token". *)
Theorem refresh_token_kind `{Env} `{JwtLib} `{!JwtLawful} :
  (∀ token w cause,
     verify token REFRESH_TOKEN_SECRET (clock w) = inl cause →
     Utils.verifyRefreshToken token w = (Ok None, w)) ∧
  (∀ token w decoded,
     verify token REFRESH_TOKEN_SECRET (clock w) = inr decoded →
     type decoded ≠ Some "refresh" →
     Utils.verifyRefreshToken token w = (Ok None, w)) ∧
  (∀ id_user issued token w,
     (Utils.generateAccessToken id_user issued).1 = Ok token →
     Utils.verifyRefreshToken token w = (Ok None, w)) ∧
  (∀ token w,
     Utils.verifyRefreshToken token w = (Ok None, w) →
     AuthService.refresh token w
     = (Throw (HTTPException 401 "Invalid refresh token"), w)).
Proof.
  split; [|split; [|split]].
  - intros token w cause. apply verifyRefreshToken_rejected.
  - intros token w decoded Hv Hk. rewrite (verifyRefreshToken_decoded _ _ _ Hv).
    by rewrite bool_decide_eq_false_2.
  - intros id_user issued token w [= <-].
    destruct (verify (sign {| sub := id_user;
                              exp := clock issued / 1000 + JWT_EXPIRES_IN / 1000;
                              type := None |} JWT_SECRET)
                REFRESH_TOKEN_SECRET (clock w)) as [cause|decoded] eqn:Hv.
    + by apply (verifyRefreshToken_rejected _ _ cause).
    + rewrite (verifyRefreshToken_decoded _ _ _ Hv).
      apply verify_sign in Hv as ->. done.
  - intros token w Hr. unfold AuthService.refresh. by rewrite (bind_ok _ _ _ _ _ Hr).
Qed.

(** An access token that is neither expired nor signed with another
    secret is still refused as a refresh token. *)
Lemma refresh_token_kind_witness :
  let w := Scenario.world Scenario.anonymous 1700000000000 in
  let token :=
    sign (JwtLib := ModelJwt.lib)
         {| sub := "u1"; exp := 1700000300; type := None |} "secret" in
  @verify ModelJwt.lib token "secret" (clock w)
    = inr {| sub := "u1"; exp := 1700000300; type := None |} ∧
  @Utils.verifyRefreshToken Scenario.shared_secret_env ModelJwt.lib token w
    = (Ok None, w).
Proof.
  split; [by vm_compute|].
  exact (proj1 (proj2 (proj2
    (@refresh_token_kind Scenario.shared_secret_env ModelJwt.lib model_lawful)))
    "u1" (Scenario.world Scenario.anonymous 1700000000000) _ _ eq_refl).
Defined.

(** ** Keys *)

Lemma split_cons_sep sep s : Js.split sep (String sep s) = "" :: Js.split sep s.
Proof. simpl. by rewrite decide_True. Qed.

Lemma split_nonempty sep s : Js.split sep s ≠ [].
Proof.
  induction s as [|a s IH]; simpl; [done|].
  destruct (decide (a = sep)); [done|]. by destruct (Js.split sep s).
Qed.


Lemma split_whole sep s : Js.contains sep s = false → Js.split sep s = [s].
Proof.
  induction s as [|a s IH]; simpl; intros Hc; [done|].
  destruct (decide (a = sep)); [done|]. by rewrite IH.
Qed.





(** C10: when no user is stored in the context, the per-user limiter
    derives the key of the default generator and behaves as the limiter
    with the default key generator: the request is counted against the
    address (or "unknown") key. *)
Theorem per_user_limiter_without_user `{Env} options next w :
  Js.truthy (var_user (ctx w)) = None →
  RateLimiter.userKeyGenerator (ctx w) = RateLimiter.defaultKeyGenerator (ctx w) ∧
  RateLimiter.rateLimiterByUser options next w
  = RateLimiter.rateLimiter
      {| RateLimiter.max := RateLimiter.max options;
         RateLimiter.windowInSeconds := RateLimiter.windowInSeconds options;
         RateLimiter.keyGenerator := None;
         RateLimiter.handler := RateLimiter.handler options;
         RateLimiter.skip := RateLimiter.skip options |} next w.
Proof.
  intros Hu.
  assert (Hk : RateLimiter.userKeyGenerator (ctx w)
               = RateLimiter.defaultKeyGenerator (ctx w)).
  { unfold RateLimiter.userKeyGenerator. by rewrite Hu. }
  split; [exact Hk|].
  unfold RateLimiter.rateLimiterByUser, RateLimiter.rateLimiter.
  unfold bind at 1 3. unfold bind at 1 2. unfold get_ctx at 1 2.
  unfold RateLimiter.key_of, RateLimiter.skipped, RateLimiter.max_of,
    RateLimiter.window_of, RateLimiter.handler_of. simpl.
  by rewrite Hk.
Qed.

Lemma per_user_limiter_without_user_witness :
  RateLimiter.userKeyGenerator (ctx (Scenario.world Scenario.anonymous 5000))
  = "rate-limit:unknown".
Proof.
  exact (proj1 (@per_user_limiter_without_user Scenario.env
                  RateLimiter.no_options (ret tt)
                  (Scenario.world Scenario.anonymous 5000) eq_refl)).
Defined.

(** ** The Redis commands *)

Section RedisFacts.
Import Redis.
Implicit Types (ks : gmap string ZKey) (key member : string) (now : Z).

Lemma members_lookup now key ks k :
  ks !! key = Some k → expired now k = false → members now key ks = zmembers k.
Proof. intros Hk He. unfold members, find. by rewrite Hk, He. Qed.

Lemma members_absent now key ks : ks !! key = None → members now key ks = ∅.
Proof. intros Hk. unfold members, find. by rewrite Hk. Qed.

(** Pruning keeps exactly the members outside the interval. *)
Lemma members_zRemRangeByScore now key lo hi ks :
  members now key (zRemRangeByScore_at now key lo hi ks)
  = filter (λ e, ¬ in_range lo hi e) (members now key ks).
Proof.
  unfold zRemRangeByScore_at, members at 2.
  destruct (find now key ks) as [k|] eqn:Hf.
  - unfold find in Hf. destruct (ks !! key) as [k'|] eqn:Hk; [|done].
    destruct (expired now k') eqn:He; [done|]. injection Hf as ->.
    case_decide as Hempty.
    + rewrite Hempty. apply members_absent, lookup_delete_eq.
    + erewrite members_lookup; [|apply lookup_insert_eq|exact He]. reflexivity.
  - rewrite map_filter_empty. apply members_absent, lookup_delete_eq.
Qed.

(** Adding a member inserts it among the members. *)
Lemma members_zAdd now key score member ks :
  members now key (zAdd_at now key score member ks)
  = <[member := score]> (members now key ks).
Proof.
  unfold zAdd_at, members at 2.
  destruct (find now key ks) as [k|] eqn:Hf.
  - unfold find in Hf. destruct (ks !! key) as [k'|] eqn:Hk; [|done].
    destruct (expired now k') eqn:He; [done|]. injection Hf as ->.
    erewrite members_lookup; [|apply lookup_insert_eq|exact He]. reflexivity.
  - erewrite members_lookup; [|apply lookup_insert_eq|done].
    simpl. by rewrite insert_empty.
Qed.

(** What is stored under the key after a positive time to live was set on
    a key that has members. *)
Lemma expire_at_lookup now key seconds ks :
  0 < seconds → members now key ks ≠ ∅ →
  expire_at now key seconds ks !! key
  = Some {| zmembers := members now key ks;
            zexpire := Some (now + seconds * 1000) |}.
Proof.
  intros Hs Hm. unfold expire_at, members in *.
  destruct (find now key ks) as [k|]; [|done].
  rewrite decide_False by lia. apply lookup_insert_eq.
Qed.

(** The commands leave the other keys alone. *)
Lemma zRemRangeByScore_at_other now key lo hi ks k :
  k ≠ key → zRemRangeByScore_at now key lo hi ks !! k = ks !! k.
Proof.
  intros Hne. unfold zRemRangeByScore_at.
  destruct (find now key ks); [case_decide|];
    by rewrite ?lookup_delete_ne, ?lookup_insert_ne.
Qed.

Lemma zAdd_at_other now key score member ks k :
  k ≠ key → zAdd_at now key score member ks !! k = ks !! k.
Proof.
  intros Hne. unfold zAdd_at.
  destruct (find now key ks); by rewrite lookup_insert_ne.
Qed.

Lemma expire_at_other now key seconds ks k :
  k ≠ key → expire_at now key seconds ks !! k = ks !! k.
Proof.
  intros Hne. unfold expire_at.
  destruct (find now key ks); [case_decide|];
    by rewrite ?lookup_delete_ne, ?lookup_insert_ne.
Qed.

End RedisFacts.

(** ** One check *)

(** Runs the limiter on a world whose fields are known. *)
Ltac run_limiter :=
  unfold RateLimiter.rateLimiter, bind, try_catch, get_ctx, Redis.getRedis,
    Date_now, Math_random, header, modify_ctx, console_error, ret,
    Redis.zRemRangeByScore, Redis.zCard, Redis.zAdd, Redis.expire,
    Redis.command; cbn.

Section LimiterFacts.
Context `{Env}.
Import RateLimiter.

(** A check against a reachable store: the Redis commands succeed. *)
Lemma rateLimiter_run options next w :
  redis_ready w = true →
  redis_faults w = [] →
  skipped options (ctx w) = false →
  rateLimiter options next w
  = if bool_decide (max_of options ≤ requestCount options w) then
      (Ok (Some (handler_of options (denial_headers options w))),
       with_ctx (denial_headers options w) (with_redis (pruned options w) [] w))
    else
      (next;; ret None)
        (with_ctx (limit_headers options w)
                  (with_redis (recorded options w) [] w)).
Proof.
  intros Hr Hf Hs. destruct w as [c now rnd users ready ks faults log].
  simpl in *. subst ready faults. run_limiter. rewrite Hs. cbn.
  unfold requestCount, pruned. cbn.
  case_bool_decide; reflexivity.
Qed.

(** A skipped request goes straight to the next stage. *)
Lemma rateLimiter_skip options next w :
  skipped options (ctx w) = true →
  rateLimiter options next w = (next;; ret None) w.
Proof.
  intros Hs. unfold rateLimiter, bind at 1 2, get_ctx. by rewrite Hs.
Qed.

Lemma requestCount_counted options w :
  requestCount options w
  = Z.of_nat (size (counted (window_of options) (clock w)
                            (key_of options (ctx w)) (redis_keys w))).
Proof.
  unfold requestCount, pruned, Redis.zCard_at, counted.
  by rewrite members_zRemRangeByScore.
Qed.

Lemma ceil_div_add x seconds :
  Js.ceil_div (x + seconds * 1000) 1000 = Js.ceil_div x 1000 + seconds.
Proof.
  unfold Js.ceil_div.
  replace (- (x + seconds * 1000)) with (- x + (- seconds) * 1000) by lia.
  rewrite Z.div_add by lia. lia.
Qed.


End LimiterFacts.


Section HeaderFacts.
Context `{Env}.
Import RateLimiter.

Lemma limit_headers_lookup options w :
  let c := limit_headers options w in
  res_headers c !! "X-RateLimit-Limit" = Some (pretty (max_of options)) ∧
  res_headers c !! "X-RateLimit-Remaining"
    = Some (pretty (Z.max 0 (max_of options - requestCount options w - 1))) ∧
  res_headers c !! "X-RateLimit-Reset"
    = Some (pretty (Js.ceil_div (clock w) 1000 + window_of options)) ∧
  res_headers c !! "Retry-After" = res_headers (ctx w) !! "Retry-After".
Proof.
  unfold limit_headers, set_header. cbn. rewrite ceil_div_add.
  repeat split.
  - do 2 (rewrite lookup_insert_ne by done). by rewrite lookup_insert_eq.
  - rewrite lookup_insert_ne by done. by rewrite lookup_insert_eq.
  - by rewrite lookup_insert_eq.
  - by do 3 (rewrite lookup_insert_ne by done).
Qed.


Lemma denial_headers_retry options w :
  res_headers (denial_headers options w) !! "Retry-After"
  = Some (pretty (window_of options)).
Proof. unfold denial_headers, set_header. cbn. by rewrite lookup_insert_eq. Qed.


End HeaderFacts.



(** ** The window *)

Section WindowFacts.
Import Redis.
Implicit Types (ks : gmap string ZKey) (key : string) (now seconds : Z).

(** Setting a positive time to live does not change what the key holds. *)
Lemma members_expire now key seconds ks :
  0 < seconds →
  members now key (expire_at now key seconds ks) = members now key ks.
Proof.
  intros Hs. unfold expire_at, members at 2.
  destruct (find now key ks) as [k|] eqn:Hf.
  - rewrite decide_False by lia.
    erewrite members_lookup; [|apply lookup_insert_eq|]; [reflexivity|].
    unfold expired. cbn. apply bool_decide_eq_false_2. lia.
  - apply members_absent, lookup_delete_eq.
Qed.

Lemma counted_pruned seconds now key ks :
  counted seconds now key
    (zRemRangeByScore_at now key 0 (now - seconds * 1000) ks)
  = counted seconds now key ks.
Proof.
  unfold counted. rewrite members_zRemRangeByScore.
  apply map_filter_filter_l. auto.
Qed.

(** With scores that are not negative, the check counts the entries later
    than the start of the window. *)
Lemma counted_in_window seconds now key ks :
  (∀ member score, members now key ks !! member = Some score → 0 ≤ score) →
  counted seconds now key ks = in_window seconds now key ks.
Proof.
  intros Hpos. unfold counted, in_window. apply map_filter_ext.
  intros member score Hm. specialize (Hpos member score Hm).
  unfold in_range. cbn. lia.
Qed.

Lemma in_window_pruned seconds now key ks :
  in_window seconds now key
    (zRemRangeByScore_at now key 0 (now - seconds * 1000) ks)
  = in_window seconds now key ks.
Proof.
  unfold in_window. rewrite members_zRemRangeByScore.
  apply map_filter_filter_l. intros member score _. unfold in_range. cbn. lia.
Qed.

Lemma in_window_recorded seconds now key member ks :
  0 < seconds →
  in_window seconds now key
    (expire_at now key seconds
       (zAdd_at now key now member
          (zRemRangeByScore_at now key 0 (now - seconds * 1000) ks)))
  = <[member := now]> (in_window seconds now key ks).
Proof.
  intros Hs. rewrite <-(in_window_pruned seconds now key ks).
  unfold in_window. rewrite members_expire, members_zAdd by done.
  apply map_filter_insert_True. cbn. lia.
Qed.

(** What the key holds after an admitted request. *)
Lemma recorded_lookup seconds now key member ks :
  0 < seconds →
  expire_at now key seconds
    (zAdd_at now key now member
       (zRemRangeByScore_at now key 0 (now - seconds * 1000) ks)) !! key
  = Some {| zmembers := <[member := now]> (counted seconds now key ks);
            zexpire := Some (now + seconds * 1000) |}.
Proof.
  intros Hs. rewrite expire_at_lookup; [|done|].
  - by rewrite members_zAdd, members_zRemRangeByScore.
  - rewrite members_zAdd. apply insert_non_empty.
Qed.

(** A key that is absent is idle. *)
Lemma idle_absent seconds t_end key ks : ks !! key = None → idle seconds t_end key ks.
Proof.
  intros Hk t _. unfold counted. rewrite (members_absent _ _ _ Hk).
  apply map_filter_empty.
Qed.

End WindowFacts.

(** ** Requests in sequence *)

Lemma serve_app mw arrivals later w :
  serve mw (arrivals ++ later) w
  = ((serve mw arrivals w).1 ++ (serve mw later (serve mw arrivals w).2).1,
     (serve mw later (serve mw arrivals w).2).2).
Proof.
  revert w. induction arrivals as [|a arrivals IH]; intros w; simpl.
  - by destruct (serve mw later w).
  - destruct (mw (ret tt) (arrive a w)) as [r w1]. rewrite IH.
    by destruct (serve mw arrivals w1).
Qed.

Lemma record_all_size entries arrivals :
  (size (record_all entries arrivals) ≤ size entries + length arrivals)%nat.
Proof.
  revert entries. induction arrivals as [|a arrivals IH]; intros entries; simpl.
  - lia.
  - etrans; [apply IH|]. rewrite map_size_insert.
    destruct (entries !! _); simpl; lia.
Qed.

(** Members that are new and pairwise different each add an entry. *)
Lemma record_all_size_fresh entries arrivals :
  NoDup (map (λ a, RateLimiter.member (at_time a) (draw a)) arrivals) →
  (∀ a, a ∈ arrivals →
     entries !! RateLimiter.member (at_time a) (draw a) = None) →
  size (record_all entries arrivals) = (size entries + length arrivals)%nat.
Proof.
  revert entries. induction arrivals as [|a arrivals IH]; intros entries Hnd Hnew.
  - simpl. lia.
  - cbn [map] in Hnd. apply NoDup_cons in Hnd as [Ha Hnd].
    cbn [record_all foldl]. fold (record_all
      (<[RateLimiter.member (at_time a) (draw a) := at_time a]> entries) arrivals).
    rewrite IH; [| done |].
    + rewrite map_size_insert_None; [simpl; lia|].
      apply Hnew, elem_of_cons. by left.
    + intros b Hb. rewrite lookup_insert_ne.
      * apply Hnew, elem_of_cons. by right.
      * intros Heq. apply Ha. rewrite Heq.
        apply list_elem_of_fmap. by exists b.
Qed.

Section SequenceFacts.
Context `{Env}.
Import RateLimiter.

(** As long as the entries on record and the requests to come are no more
    than [max] together, every request is admitted and recorded. *)
Lemma serve_admits options key t_end arrivals : ∀ w entries,
  redis_ready w = true →
  redis_faults w = [] →
  in_one_window options key t_end arrivals →
  (∀ t, t_end - window_of options * 1000 < t ≤ t_end →
        counted (window_of options) t key (redis_keys w) = entries) →
  Z.of_nat (size entries) + Z.of_nat (length arrivals) ≤ max_of options →
  let served := serve (rateLimiter options) arrivals w in
  Forall (λ r, r = Ok None) served.1 ∧
  redis_ready served.2 = true ∧
  redis_faults served.2 = [] ∧
  (∀ t, t_end - window_of options * 1000 < t ≤ t_end →
        counted (window_of options) t key (redis_keys served.2)
        = record_all entries arrivals).
Proof.
  induction arrivals as [|a arrivals IH]; intros w entries Hr Hf Hin Hinv Hmax.
  - simpl. by repeat split.
  - destruct (Hin a) as (Hkey & Hskip & Ht); [apply elem_of_cons; by left|].
    set (t := at_time a) in *. set (seconds := window_of options) in *.
    assert (Hpos : 0 < seconds) by lia.
    pose proof (rateLimiter_run options (ret tt) (arrive a w) Hr Hf Hskip) as Hrun.
    assert (Hcount : requestCount options (arrive a w) = Z.of_nat (size entries)).
    { rewrite requestCount_counted. cbn [ctx clock redis_keys arrive].
      rewrite Hkey. fold seconds t. by rewrite (Hinv t Ht). }
    rewrite Hcount in Hrun.
    rewrite bool_decide_eq_false_2 in Hrun by (cbn [length] in Hmax; lia).
    set (w1 := with_ctx _ _) in Hrun.
    assert (Hstep : rateLimiter options (ret tt) (arrive a w) = (Ok None, w1))
      by (by rewrite Hrun).
    cbn zeta. cbn [serve]. rewrite Hstep.
    set (m := member t (draw a)).
    assert (Hinv1 : ∀ t', t_end - seconds * 1000 < t' ≤ t_end →
              counted seconds t' key (redis_keys w1) = <[m := t]> entries).
    { intros t' Ht'. unfold w1. cbn [redis_keys with_ctx with_redis].
      unfold recorded, pruned. cbn [ctx clock redis_keys random arrive].
      rewrite Hkey. fold seconds t m.
      pose proof (recorded_lookup seconds t key m (redis_keys w) Hpos) as Hk.
      rewrite (Hinv t Ht) in Hk.
      unfold counted. erewrite members_lookup; [|exact Hk|].
      - cbn [zmembers]. rewrite map_filter_insert_True.
        + f_equal. apply map_filter_id. intros i x Hx.
          rewrite <-(Hinv t_end) in Hx by lia. unfold counted in Hx.
          apply map_lookup_filter_Some in Hx as [_ Hx].
          unfold Redis.in_range in *. cbn in *. lia.
        + unfold Redis.in_range. cbn. lia.
      - unfold Redis.expired. cbn. apply bool_decide_eq_false_2. lia. }
    destruct (IH w1 (<[m := t]> entries)) as (Hall & Hr1 & Hf1 & Hinv2).
    + exact Hr.
    + reflexivity.
    + intros b Hb. apply Hin, elem_of_cons. by right.
    + exact Hinv1.
    + pose proof (map_size_insert m t entries) as Hsz.
      destruct (entries !! m); cbn in Hsz; cbn [length] in Hmax; lia.
    + destruct (serve (rateLimiter options) arrivals w1) as [rs w2] eqn:Hserve.
      cbn [fst snd] in *. repeat split; [|done..].
      by apply Forall_cons.
Qed.

End SequenceFacts.

Lemma serve_length mw arrivals w : length (serve mw arrivals w).1 = length arrivals.
Proof.
  revert w. induction arrivals as [|a arrivals IH]; intros w; simpl; [done|].
  destruct (mw (ret tt) (arrive a w)) as [r w1]. specialize (IH w1).
  destruct (serve mw arrivals w1). simpl in *. by rewrite IH.
Qed.

(** C3, as stated, fails at the start of the window: with [max = 1] and a
    window of one second, a request at 6000 ms finds the entry recorded at
    5000 ms.  That entry has timestamp [>= now - windowDuration], so the
    count the claim describes is not below [max]; yet the request is
    admitted, because the pruning removes scores up to and including the
    start of the window. *)
Lemma window_start_is_excluded :
  let options := Scenario.one_per_second in
  let first := {| at_time := 5000; draw := "0.1"; request := Scenario.anonymous |} in
  let second := {| at_time := 6000; draw := "0.2"; request := Scenario.anonymous |} in
  let w := (serve (@RateLimiter.rateLimiter Scenario.env options) [first]
                  (Scenario.world Scenario.anonymous 0)).2 in
  ¬ ((@RateLimiter.rateLimiter Scenario.env options (ret tt) (arrive second w)).1
       = Ok None
     ↔ (size (in_window_as_stated 1 6000 "rate-limit:unknown" (redis_keys w)) < 1)%nat).
Proof.
  cbn zeta. intros [Hadmitted _].
  assert (Hs : size (in_window_as_stated 1 6000 "rate-limit:unknown"
                 (redis_keys (serve (@RateLimiter.rateLimiter Scenario.env
                     Scenario.one_per_second)
                   [{| at_time := 5000; draw := "0.1"; request := Scenario.anonymous |}]
                   (Scenario.world Scenario.anonymous 0)).2)) = 1%nat)
    by (by vm_compute).
  rewrite Hs in Hadmitted. apply Nat.lt_irrefl in Hadmitted; [done|].
  by vm_compute.
Qed.

(** C3, amended: for a check whose Redis commands succeed and a key whose
    scores are not negative, the request is admitted exactly when fewer
    than [max] entries have a timestamp later than [now - windowDuration]
    (an entry exactly one window old no longer counts).  An admitted
    request adds its entry; a denied one gets the handler's response with
    Retry-After equal to the window, and the store is only pruned, so the
    entries in the window stay as they were.  Hence up to [max] requests
    for an idle key within one window are all admitted, and after [max]
    admitted requests with distinct members a further request in the same
    window is denied and leaves exactly those [max] entries. *)
Theorem sliding_window `{Env} options :
  let limit := RateLimiter.max_of options in
  let seconds := RateLimiter.window_of options in
  (∀ next w,
     redis_ready w = true →
     redis_faults w = [] →
     RateLimiter.skipped options (ctx w) = false →
     let key := RateLimiter.key_of options (ctx w) in
     (∀ member score,
        Redis.members (clock w) key (redis_keys w) !! member = Some score →
        0 ≤ score) →
     let unexpired := in_window seconds (clock w) key (redis_keys w) in
     ∃ w',
       (Z.of_nat (size unexpired) < limit →
        RateLimiter.rateLimiter options next w = (next;; ret None) w' ∧
        (0 < seconds →
         in_window seconds (clock w) key (redis_keys w')
         = <[RateLimiter.member (clock w) (random w) := clock w]> unexpired)) ∧
       (limit ≤ Z.of_nat (size unexpired) →
        RateLimiter.rateLimiter options next w
          = (Ok (Some (RateLimiter.handler_of options (ctx w'))), w') ∧
        res_headers (ctx w') !! "Retry-After" = Some (pretty seconds) ∧
        redis_keys w' = pruned options w ∧
        in_window seconds (clock w) key (redis_keys w') = unexpired)) ∧
  (∀ key t_end arrivals w,
     redis_ready w = true →
     redis_faults w = [] →
     in_one_window options key t_end arrivals →
     idle seconds t_end key (redis_keys w) →
     Z.of_nat (length arrivals) ≤ limit →
     Forall (λ r, r = Ok None)
            (serve (RateLimiter.rateLimiter options) arrivals w).1) ∧
  (∀ key t_end arrivals last w,
     redis_ready w = true →
     redis_faults w = [] →
     in_one_window options key t_end (arrivals ++ [last]) →
     idle seconds t_end key (redis_keys w) →
     Z.of_nat (length arrivals) = limit →
     NoDup (map (λ a, RateLimiter.member (at_time a) (draw a)) arrivals) →
     let served := serve (RateLimiter.rateLimiter options) (arrivals ++ [last]) w in
     ∃ admitted denial,
       served.1 = admitted ++ [Ok (Some denial)] ∧
       length admitted = length arrivals ∧
       Forall (λ r, r = Ok None) admitted ∧
       denial = RateLimiter.handler_of options (ctx served.2) ∧
       res_headers (ctx served.2) !! "Retry-After" = Some (pretty seconds) ∧
       counted seconds (at_time last) key (redis_keys served.2)
         = record_all ∅ arrivals ∧
       size (record_all ∅ arrivals) = length arrivals).
Proof.
  intros limit seconds. split; [|split].
  - intros next w Hr Hf Hs key Hpos unexpired.
    pose proof (rateLimiter_run options next w Hr Hf Hs) as Hrun.
    assert (Hcount : requestCount options w = Z.of_nat (size unexpired)).
    { rewrite requestCount_counted. fold seconds key.
      by rewrite counted_in_window. }
    rewrite Hcount in Hrun. fold limit in Hrun.
    destruct (decide (limit ≤ Z.of_nat (size unexpired))) as [Hdeny|Hadmit].
    + rewrite bool_decide_eq_true_2 in Hrun by done.
      exists (with_ctx (denial_headers options w)
                       (with_redis (pruned options w) [] w)).
      split; [lia|]. intros _. split; [exact Hrun|].
      cbn [ctx redis_keys with_ctx with_redis].
      split; [apply denial_headers_retry|]. split; [done|].
      apply in_window_pruned.
    + rewrite bool_decide_eq_false_2 in Hrun by done.
      exists (with_ctx (limit_headers options w)
                       (with_redis (recorded options w) [] w)).
      split; [|lia]. intros _. split; [exact Hrun|]. intros Hsec.
      cbn [ctx redis_keys with_ctx with_redis].
      by apply in_window_recorded.
  - intros key t_end arrivals w Hr Hf Hin Hidle Hlen.
    apply (serve_admits options key t_end arrivals w ∅); try done;
      rewrite map_size_empty; fold limit; lia.
  - intros key t_end arrivals last w Hr Hf Hin Hidle Hlen Hnd served.
    subst limit seconds.
    assert (Hin1 : in_one_window options key t_end arrivals).
    { intros a Ha. apply Hin, elem_of_app. by left. }
    destruct (Hin last) as (Hkey & Hskip & Ht).
    { apply elem_of_app. right. apply elem_of_cons. by left. }
    destruct (serve_admits options key t_end arrivals w ∅ Hr Hf Hin1 Hidle)
      as (Hall & Hr1 & Hf1 & Hinv).
    { rewrite map_size_empty. lia. }
    assert (Hsize : size (record_all ∅ arrivals) = length arrivals).
    { rewrite record_all_size_fresh; [by rewrite map_size_empty|done|].
      intros a _. apply lookup_empty. }
    set (w1 := (serve (RateLimiter.rateLimiter options) arrivals w).2) in *.
    pose proof (rateLimiter_run options (ret tt) (arrive last w1) Hr1 Hf1 Hskip) as Hrun.
    assert (Hcount : requestCount options (arrive last w1)
                     = RateLimiter.max_of options).
    { rewrite requestCount_counted. cbn [ctx clock redis_keys arrive].
      rewrite Hkey, (Hinv _ Ht), Hsize. exact Hlen. }
    rewrite Hcount in Hrun.
    rewrite bool_decide_eq_true_2 in Hrun by lia.
    subst served. rewrite serve_app. fold w1. cbn [serve fst snd].
    rewrite Hrun. cbn [fst snd].
    eexists _, _. split; [reflexivity|].
    split; [apply serve_length|]. split; [exact Hall|].
    cbn [ctx redis_keys with_ctx with_redis]. split; [done|].
    split; [apply denial_headers_retry|]. split; [|exact Hsize].
    unfold pruned. cbn [ctx clock redis_keys arrive]. rewrite Hkey.
    rewrite counted_pruned. by apply Hinv.
Qed.



(** Scenario A: ten requests in a minute are admitted, the eleventh is
    denied with Retry-After 60 and status 429. *)
Lemma sliding_window_witness :
  let eleventh :=
    {| at_time := 11000; draw := "0.5"; request := Scenario.anonymous |} in
  let served :=
    serve (@RateLimiter.rateLimiter Scenario.env Scenario.strict)
          (Scenario.burst 10 1000 ++ [eleventh])
          (Scenario.world Scenario.anonymous 0) in
  ∃ admitted denial,
    served.1 = admitted ++ [Ok (Some denial)] ∧
    length admitted = 10%nat ∧
    Forall (λ r, r = Ok None) admitted ∧
    status denial = 429 ∧
    res_headers (ctx served.2) !! "Retry-After" = Some "60".
Proof.
  cbn zeta.
  destruct (proj2 (proj2 (@sliding_window Scenario.env Scenario.strict))
              "rate-limit:unknown" 11000 (Scenario.burst 10 1000)
              {| at_time := 11000; draw := "0.5"; request := Scenario.anonymous |}
              (Scenario.world Scenario.anonymous 0))
    as (admitted & denial & Hserved & Hlen & Hall & Hdenial & Hretry & _).
  - reflexivity.
  - reflexivity.
  - intros a Ha. cbn in Ha.
    repeat (apply elem_of_cons in Ha as [-> | Ha];
            [split; [by vm_compute|split; [reflexivity|]]; cbn; lia|]).
    by apply elem_of_nil in Ha.
  - apply idle_absent. reflexivity.
  - reflexivity.
  - refine (bool_decide_unpack _ _). vm_compute. exact I.
  - exists admitted, denial. split; [exact Hserved|]. split; [exact Hlen|].
    split; [exact Hall|]. split; [by rewrite Hdenial|exact Hretry].
Defined.

(** ** Further properties *)

(** Without an Authorization header, or with one that does not start with
    "Bearer ", [authMiddleware] answers 401 "Invalid or expired token"
    itself; the next stage does not run and nothing changes. *)
Theorem bearer_header_required `{Env} `{JwtLib} next w :
  (req_header "authorization" (ctx w) = None ∨
   ∃ auth, req_header "authorization" (ctx w) = Some auth ∧
           Js.startsWith "Bearer " auth = false) →
  Auth.authMiddleware next w
  = (Ok (Some (json "Invalid or expired token" 401)), w).
Proof.
  intros [Hnone | (auth & Hsome & Hprefix)].
  - by apply authMiddleware_no_header.
  - by apply (authMiddleware_not_bearer next w auth).
Qed.

Lemma bearer_header_required_witness :
  @Auth.authMiddleware Scenario.env ModelJwt.lib Scenario.protected_operation
    (Scenario.world Scenario.anonymous 5000)
  = (Ok (Some (json "Invalid or expired token" 401)),
     Scenario.world Scenario.anonymous 5000).
Proof.
  apply (@bearer_header_required Scenario.env ModelJwt.lib). left. reflexivity.
Defined.

(** Whatever happens during a check (skipped, client missing, commands
    rejected or not), the limiter leaves every Redis key other than the
    one its key generator returns as it was. *)
Theorem limiter_touches_its_key_only `{Env} options w k :
  k ≠ RateLimiter.key_of options (ctx w) →
  redis_keys (RateLimiter.rateLimiter options (ret tt) w).2 !! k
  = redis_keys w !! k.
Proof.
  intros Hk. destruct w as [c now rnd users ready ks faults log]. cbn in Hk.
  run_limiter.
  destruct (RateLimiter.skipped options c); [done|].
  destruct ready; [|done]. cbn.
  repeat match goal with
         | |- context [match ?fs with [] => _ | _ :: _ => _ end] =>
             is_var fs; destruct fs as [|[] ?]; cbn
         | |- context [bool_decide ?P] => destruct (bool_decide P); cbn
         end;
    by rewrite ?expire_at_other, ?zAdd_at_other, ?zRemRangeByScore_at_other.
Qed.

Lemma limiter_touches_its_key_only_witness :
  redis_keys
    (@RateLimiter.rateLimiter Scenario.env Scenario.strict (ret tt)
       (Scenario.world Scenario.anonymous 5000)).2 !! "rate-limit:203.0.113.7"
  = None.
Proof.
  exact (@limiter_touches_its_key_only Scenario.env Scenario.strict
           (Scenario.world Scenario.anonymous 5000) "rate-limit:203.0.113.7"
           ltac:(vm_compute; discriminate)).
Defined.

(** * Further properties of the code *)

(** ** Role and permission middleware *)

Section MoreRolePermissionFacts.
Import RolePermission.

Lemma load_user_unauthorized w :
  Js.truthy (var_jwtPayload (ctx w)) = None →
  load_user w = (Throw (HTTPException 401 "Invalid or expired token"), w).
Proof.
  intros Hp. unfold load_user, bind, get_ctx. by rewrite Hp.
Qed.

(** What [load_user] can do: return a row, or throw 401 or 404; it never
    changes the world. *)
Lemma load_user_cases w :
  (∃ user, load_user w = (Ok user, w)) ∨
  load_user w = (Throw (HTTPException 401 "Invalid or expired token"), w) ∨
  load_user w = (Throw (HTTPException 404 "User not found"), w).
Proof.
  unfold load_user, bind, get_ctx, findUnique.
  destruct (Js.truthy (var_jwtPayload (ctx w))) as [claims|]; [|by right; left].
  cbn. destruct (db w !! sub claims) as [user|]; [left; by exists user|by right; right].
Qed.

Lemma existsb_Exists {A} (f : A → bool) (P : A → Prop) (l : list A) :
  (∀ x, f x = true ↔ P x) → existsb f l = true ↔ Exists P l.
Proof.
  intros Hf. rewrite existsb_exists, Exists_exists.
  split; intros (x & Hx & Hfx); exists x; rewrite ?list_elem_of_In in *;
    split; try done; by apply Hf.
Qed.

Lemma forallb_Forall {A} (f : A → bool) (P : A → Prop) (l : list A) :
  (∀ x, f x = true ↔ P x) → forallb f l = true ↔ Forall P l.
Proof.
  intros Hf. rewrite forallb_forall, Forall_forall.
  split; intros Hall x Hx; apply Hf, Hall; by rewrite ?list_elem_of_In in *.
Qed.

(** A decision as the code takes it, from the Boolean it computed. *)
Lemma decision_of_bool (b : bool) (P : Prop) `{!Decision P} {A B}
    (x y : A → B) (a : A) :
  (b = true ↔ P) →
  (if negb b then x else y) a = if bool_decide P then y a else x a.
Proof.
  intros Hb. destruct b; cbn.
  - by rewrite bool_decide_eq_true_2 by (by apply Hb).
  - rewrite bool_decide_eq_false_2; [done|]. intros HP. by apply Hb in HP.
Qed.

Lemma hasRole_spec user roleName :
  existsb (λ ur, bool_decide (role_name ur = roleName)) (user_roles user) = true
  ↔ roleName ∈ map role_name (user_roles user).
Proof.
  rewrite existsb_exists, list_elem_of_fmap. split.
  - intros (ur & Hin & Heq). apply bool_decide_eq_true in Heq.
    exists ur. by rewrite <-list_elem_of_In in Hin.
  - intros (ur & -> & Hin). exists ur. rewrite <-list_elem_of_In.
    split; [done|]. by apply bool_decide_eq_true.
Qed.

Lemma hasAnyRole_spec user roleNames :
  existsb (λ ur, Js.includes roleNames (role_name ur)) (user_roles user) = true
  ↔ Exists (λ roleName, roleName ∈ map role_name (user_roles user)) roleNames.
Proof.
  rewrite existsb_exists, Exists_exists. split.
  - intros (ur & Hin & Hinc). apply includes_true in Hinc.
    exists (role_name ur). split; [done|]. apply list_elem_of_fmap.
    exists ur. by rewrite <-list_elem_of_In in Hin.
  - intros (roleName & Hin & Hheld). apply list_elem_of_fmap in Hheld as (ur & -> & Hur).
    exists ur. rewrite <-list_elem_of_In. split; [done|]. by apply includes_true.
Qed.

(** The permission middleware, once the user is loaded. *)
Lemma requirePermission_run w user next name :
  load_user w = (Ok user, w) →
  requirePermission name next w
  = if Js.includes (allPermissions user) name then (next;; ret None) w
    else (Throw (HTTPException 403 "Access denied"), w).
Proof.
  intros Hl. unfold requirePermission. rewrite (bind_ok _ _ _ _ _ Hl).
  by destruct (Js.includes _ _).
Qed.

Lemma requireAnyPermission_run w user next names :
  load_user w = (Ok user, w) →
  requireAnyPermission names next w
  = if existsb (λ permission, Js.includes (allPermissions user) permission) names
    then (next;; ret None) w
    else (Throw (HTTPException 403 "Access denied"), w).
Proof.
  intros Hl. unfold requireAnyPermission. rewrite (bind_ok _ _ _ _ _ Hl).
  by destruct (existsb _ _).
Qed.

Lemma requireAllPermissions_run w user next names :
  load_user w = (Ok user, w) →
  requireAllPermissions names next w
  = if forallb (λ permission, Js.includes (allPermissions user) permission) names
    then (next;; ret None) w
    else (Throw (HTTPException 403 "Access denied"), w).
Proof.
  intros Hl. unfold requireAllPermissions. rewrite (bind_ok _ _ _ _ _ Hl).
  by destruct (forallb _ _).
Qed.

Lemma existsb_ext {A} (f g : A → bool) (l : list A) :
  (∀ x, f x = g x) → existsb f l = existsb g l.
Proof. intros Hfg. induction l as [|x l IH]; cbn; [done|]. by rewrite Hfg, IH. Qed.

End MoreRolePermissionFacts.

(** Without a payload in the context ([undefined], or the [null] that
    a rejected token leaves), each of the six middleware throws 401
    "Invalid or expired token"; the table is not read and the later stages
    do not run. *)
Theorem authorization_requires_claims w next :
  Js.truthy (var_jwtPayload (ctx w)) = None →
  let unauthorized := (Throw (HTTPException 401 "Invalid or expired token"), w) in
  (∀ roleName, RolePermission.requireRole roleName next w = unauthorized) ∧
  (∀ roleNames, RolePermission.requireAnyRole roleNames next w = unauthorized) ∧
  (∀ roleNames, RolePermission.requireAllRoles roleNames next w = unauthorized) ∧
  (∀ name, RolePermission.requirePermission name next w = unauthorized) ∧
  (∀ names, RolePermission.requireAnyPermission names next w = unauthorized) ∧
  (∀ names, RolePermission.requireAllPermissions names next w = unauthorized).
Proof.
  intros Hp unauthorized. pose proof (load_user_unauthorized w Hp) as Hl.
  repeat split; intros; by apply bind_throw.
Qed.

Lemma authorization_requires_claims_witness :
  RolePermission.requirePermission "role.read" Scenario.protected_operation
    (with_ctx (set_jwtPayload Js.Null Scenario.anonymous)
              (Scenario.world Scenario.anonymous 5000))
  = (Throw (HTTPException 401 "Invalid or expired token"),
     with_ctx (set_jwtPayload Js.Null Scenario.anonymous)
              (Scenario.world Scenario.anonymous 5000)).
Proof.
  refine (proj1 (proj2 (proj2 (proj2
    (authorization_requires_claims _ Scenario.protected_operation _)))) "role.read").
  reflexivity.
Defined.

(** For an existing subject the three role middleware decide by the
    names of the roles the user holds: [requireRole] lets the request
    through exactly when the name is among them, [requireAnyRole] when one
    of the listed names is, [requireAllRoles] when every listed name is;
    otherwise they throw 403 "Access denied". *)
Theorem role_decisions w claims user next :
  var_jwtPayload (ctx w) = Js.Value claims →
  db w !! sub claims = Some user →
  let held := map role_name (user_roles user) in
  let pass := (next;; ret None) w in
  let deny := (Throw (HTTPException 403 "Access denied"), w) in
  (∀ roleName,
     RolePermission.requireRole roleName next w
     = if bool_decide (roleName ∈ held) then pass else deny) ∧
  (∀ roleNames,
     RolePermission.requireAnyRole roleNames next w
     = if bool_decide (Exists (λ roleName, roleName ∈ held) roleNames)
       then pass else deny) ∧
  (∀ roleNames,
     RolePermission.requireAllRoles roleNames next w
     = if bool_decide (Forall (λ roleName, roleName ∈ held) roleNames)
       then pass else deny).
Proof.
  intros Hp Hu held pass deny.
  pose proof (load_user_found w claims user Hp Hu) as Hl.
  split; [|split].
  - intros roleName. unfold RolePermission.requireRole.
    rewrite (bind_ok _ _ _ _ _ Hl). apply decision_of_bool, hasRole_spec.
  - intros roleNames. unfold RolePermission.requireAnyRole.
    rewrite (bind_ok _ _ _ _ _ Hl). apply decision_of_bool, hasAnyRole_spec.
  - intros roleNames. unfold RolePermission.requireAllRoles.
    rewrite (bind_ok _ _ _ _ _ Hl). apply decision_of_bool.
    apply forallb_Forall. intros roleName. apply includes_true.
Qed.

Lemma role_decisions_witness :
  RolePermission.requireAllRoles ["analyst"; "admin"] Scenario.protected_operation
    Scenario.analyst_world
  = (Throw (HTTPException 403 "Access denied"), Scenario.analyst_world).
Proof.
  exact (proj2 (proj2 (role_decisions Scenario.analyst_world
    {| sub := "u1"; exp := 1700000300; type := None |} Scenario.analyst
    Scenario.protected_operation eq_refl eq_refl)) ["analyst"; "admin"]).
Defined.

(** [requireAnyPermission] lets the request through exactly when one
    of the listed names is granted to the user through a role or directly,
    [requireAllPermissions] when every listed name is; otherwise they
    throw 403 "Access denied".  So an empty list is refused by the first
    and accepted by the second. *)
Theorem permission_list_decisions w claims user next :
  var_jwtPayload (ctx w) = Js.Value claims →
  db w !! sub claims = Some user →
  let granted name :=
    name ∈ RolePermission.rolePermissions user
    ∨ name ∈ RolePermission.directPermissions user in
  let pass := (next;; ret None) w in
  let deny := (Throw (HTTPException 403 "Access denied"), w) in
  (∀ names,
     (Exists granted names → RolePermission.requireAnyPermission names next w = pass) ∧
     (¬ Exists granted names → RolePermission.requireAnyPermission names next w = deny)) ∧
  (∀ names,
     (Forall granted names → RolePermission.requireAllPermissions names next w = pass) ∧
     (¬ Forall granted names → RolePermission.requireAllPermissions names next w = deny)) ∧
  RolePermission.requireAnyPermission [] next w = deny ∧
  RolePermission.requireAllPermissions [] next w = pass.
Proof.
  intros Hp Hu granted pass deny.
  pose proof (load_user_found w claims user Hp Hu) as Hl.
  assert (Hany : ∀ names,
    existsb (λ permission, Js.includes (RolePermission.allPermissions user) permission)
            names = true ↔ Exists granted names).
  { intros names. apply existsb_Exists. intros name.
    by rewrite includes_true, allPermissions_elem. }
  assert (Hall : ∀ names,
    forallb (λ permission, Js.includes (RolePermission.allPermissions user) permission)
            names = true ↔ Forall granted names).
  { intros names. apply forallb_Forall. intros name.
    by rewrite includes_true, allPermissions_elem. }
  pose proof (λ names, requireAnyPermission_run w user next names Hl) as Hanyd.
  pose proof (λ names, requireAllPermissions_run w user next names Hl) as Halld.
  fold pass deny in Hanyd, Halld.
  split; [|split; [|split]].
  - intros names. rewrite Hanyd. specialize (Hany names).
    destruct (existsb _ names); split; intros Hg; try done.
    + exfalso. apply Hg. by apply Hany.
    + apply Hany in Hg. discriminate.
  - intros names. rewrite Halld. specialize (Hall names).
    destruct (forallb _ names); split; intros Hg; try done.
    + exfalso. apply Hg. by apply Hall.
    + apply Hall in Hg. discriminate.
  - by rewrite Hanyd.
  - by rewrite Halld.
Qed.

Lemma permission_list_decisions_witness :
  RolePermission.requireAnyPermission ["post.delete"; "post.publish"]
    Scenario.protected_operation Scenario.analyst_world
  = (Scenario.protected_operation;; ret None) Scenario.analyst_world.
Proof.
  refine (proj1 (proj1 (permission_list_decisions Scenario.analyst_world
    {| sub := "u1"; exp := 1700000300; type := None |} Scenario.analyst
    Scenario.protected_operation eq_refl eq_refl) ["post.delete"; "post.publish"]) _).
  apply Exists_cons_tl, Exists_cons_hd. left. by vm_compute; repeat constructor.
Defined.

(** A list with one name behaves as the single-name middleware, in
    every context (payload missing, subject missing, name held or not):
    [requireAnyRole([r])] and [requireAllRoles([r])] are [requireRole(r)],
    and likewise for permissions. *)
Theorem singleton_lists next w :
  (∀ roleName,
     RolePermission.requireAnyRole [roleName] next w
       = RolePermission.requireRole roleName next w ∧
     RolePermission.requireAllRoles [roleName] next w
       = RolePermission.requireRole roleName next w) ∧
  (∀ name,
     RolePermission.requireAnyPermission [name] next w
       = RolePermission.requirePermission name next w ∧
     RolePermission.requireAllPermissions [name] next w
       = RolePermission.requirePermission name next w).
Proof.
  split.
  - intros roleName.
    unfold RolePermission.requireAnyRole, RolePermission.requireAllRoles,
      RolePermission.requireRole, bind.
    destruct (RolePermission.load_user w) as [[user|e] w1]; [|done].
    assert (Hany : existsb (λ ur, Js.includes [roleName] (role_name ur)) (user_roles user)
              = existsb (λ ur, bool_decide (role_name ur = roleName)) (user_roles user)).
    { apply existsb_ext. intros ur. unfold Js.includes.
      apply bool_decide_ext, list_elem_of_singleton. }
    assert (Hall : forallb (λ name, Js.includes (map role_name (user_roles user)) name)
                     [roleName]
              = existsb (λ ur, bool_decide (role_name ur = roleName)) (user_roles user)).
    { cbn. rewrite andb_true_r. apply eq_true_iff_eq.
      by rewrite includes_true, hasRole_spec. }
    by rewrite Hany, Hall.
  - intros name.
    unfold RolePermission.requireAnyPermission, RolePermission.requireAllPermissions,
      RolePermission.requirePermission, bind.
    destruct (RolePermission.load_user w) as [[user|e] w1]; [|done].
    cbn. by rewrite orb_false_r, andb_true_r.
Qed.

(** Each of the six middleware only decides: whatever the context, it
    either hands the unchanged world to the later stages or throws an HTTP
    exception with status 401, 403 or 404 and leaves the world as it was;
    it never answers itself. *)
Theorem authorization_only_decides :
  (∀ roleName, only_decides [401; 403; 404] (RolePermission.requireRole roleName)) ∧
  (∀ roleNames, only_decides [401; 403; 404] (RolePermission.requireAnyRole roleNames)) ∧
  (∀ roleNames, only_decides [401; 403; 404] (RolePermission.requireAllRoles roleNames)) ∧
  (∀ name, only_decides [401; 403; 404] (RolePermission.requirePermission name)) ∧
  (∀ names, only_decides [401; 403; 404] (RolePermission.requireAnyPermission names)) ∧
  (∀ names, only_decides [401; 403; 404] (RolePermission.requireAllPermissions names)).
Proof.
  assert (Hthrow : ∀ (next : M unit) w (mw : Middleware) (k : UserRow → M (option Response)),
    mw next w = bind RolePermission.load_user k w →
    (∀ user, RolePermission.load_user w = (Ok user, w) →
       mw next w = (next;; ret None) w ∨
       ∃ code message, code ∈ [401; 403; 404] ∧
         mw next w = (Throw (HTTPException code message), w)) →
    mw next w = (next;; ret None) w ∨
    ∃ code message, code ∈ [401; 403; 404] ∧
      mw next w = (Throw (HTTPException code message), w)).
  { intros next w mw k Hmw Hok.
    destruct (load_user_cases w) as [[user Hl] | [Hl | Hl]].
    - by apply (Hok user).
    - right. exists 401, "Invalid or expired token". split; [by apply elem_of_cons; left|].
      rewrite Hmw. by apply bind_throw.
    - right. exists 404, "User not found".
      split; [do 2 (apply elem_of_cons; right); by apply elem_of_cons; left|].
      rewrite Hmw. by apply bind_throw. }
  repeat split; intros arg next w.
  all: eapply Hthrow; [reflexivity|]; intros user Hl.
  all: unfold RolePermission.requireRole, RolePermission.requireAnyRole,
         RolePermission.requireAllRoles, RolePermission.requirePermission,
         RolePermission.requireAnyPermission, RolePermission.requireAllPermissions.
  all: rewrite (bind_ok _ _ _ _ _ Hl).
  all: match goal with |- context [negb ?b] => destruct b end; cbn [negb];
         [by left|].
  all: right; exists 403, "Access denied"; split; [|done].
  all: apply elem_of_cons; right; apply elem_of_cons; by left.
Qed.

(** More grants never take access away: if every permission name
    granted to a user (through a role or directly) is also granted after a
    change of the user's roles and grants, then every permission check the
    request passed before, it passes after. *)
Theorem grants_only_add_access w w2 claims user user2 :
  var_jwtPayload (ctx w) = Js.Value claims →
  var_jwtPayload (ctx w2) = Js.Value claims →
  db w !! sub claims = Some user →
  db w2 !! sub claims = Some user2 →
  (∀ name, name ∈ RolePermission.allPermissions user →
           name ∈ RolePermission.allPermissions user2) →
  (∀ name next,
     RolePermission.requirePermission name (ret tt) w = (Ok None, w) →
     RolePermission.requirePermission name next w2 = (next;; ret None) w2) ∧
  (∀ names next,
     RolePermission.requireAnyPermission names (ret tt) w = (Ok None, w) →
     RolePermission.requireAnyPermission names next w2 = (next;; ret None) w2) ∧
  (∀ names next,
     RolePermission.requireAllPermissions names (ret tt) w = (Ok None, w) →
     RolePermission.requireAllPermissions names next w2 = (next;; ret None) w2).
Proof.
  intros Hp Hp2 Hu Hu2 Hmore.
  pose proof (load_user_found w claims user Hp Hu) as Hl.
  pose proof (load_user_found w2 claims user2 Hp2 Hu2) as Hl2.
  split; [|split].
  - intros name next. rewrite (requirePermission_run _ _ _ _ Hl),
      (requirePermission_run _ _ _ _ Hl2).
    destruct (Js.includes (RolePermission.allPermissions user) name) eqn:Hin;
      [|discriminate].
    intros _. apply includes_true, Hmore, includes_true in Hin. by rewrite Hin.
  - intros names next. rewrite (requireAnyPermission_run _ _ _ _ Hl),
      (requireAnyPermission_run _ _ _ _ Hl2).
    destruct (existsb _ names) eqn:Hin; [|discriminate]. intros _.
    assert (existsb (λ permission,
              Js.includes (RolePermission.allPermissions user2) permission) names
            = true) as ->; [|done].
    apply existsb_exists in Hin as (name & Hname & Hin).
    apply existsb_exists. exists name. split; [done|].
    by apply includes_true, Hmore, includes_true.
  - intros names next. rewrite (requireAllPermissions_run _ _ _ _ Hl),
      (requireAllPermissions_run _ _ _ _ Hl2).
    destruct (forallb _ names) eqn:Hin; [|discriminate]. intros _.
    assert (forallb (λ permission,
              Js.includes (RolePermission.allPermissions user2) permission) names
            = true) as ->; [|done].
    rewrite forallb_forall in *. intros name Hname.
    by apply includes_true, Hmore, includes_true, Hin.
Qed.

Lemma grants_only_add_access_witness :
  RolePermission.requireAllPermissions ["report.view"; "post.publish"]
    Scenario.protected_operation Sample.promoted_world
  = (Scenario.protected_operation;; ret None) Sample.promoted_world.
Proof.
  refine (proj2 (proj2 (grants_only_add_access Scenario.analyst_world
    Sample.promoted_world {| sub := "u1"; exp := 1700000300; type := None |}
    Scenario.analyst Sample.promoted eq_refl eq_refl eq_refl eq_refl _))
    ["report.view"; "post.publish"] Scenario.protected_operation eq_refl).
  intros name. rewrite !allPermissions_elem.
  intros [Hrole | Hdirect]; [by left|]. right. by apply elem_of_cons; right.
Defined.

(** ** Tokens and the authentication middleware *)



Section MoreTokenFacts.
Context `{Env} `{JwtLib}.

(** With a token that [verify] accepts, the middleware stores the decoded
    payload and calls [next()] inside its [try]. *)
Lemma authMiddleware_accepted_token next w auth token decoded :
  req_header "authorization" (ctx w) = Some auth →
  Js.startsWith "Bearer " auth = true →
  Js.split " " auth !! 1%nat = Some token →
  verify token JWT_SECRET (clock w) = inr decoded →
  Auth.authMiddleware next w
  = try_catch (next;; ret None) (λ _, ret (Some Auth.invalid_or_expired))
              (with_ctx (set_jwtPayload (Js.Value decoded) (ctx w)) w).
Proof.
  intros Hh Hb Ht Hv. unfold Auth.authMiddleware.
  unfold bind at 1. unfold get_ctx at 1. rewrite Hh, Hb, Ht. simpl.
  unfold try_catch, bind. rewrite (verifyAccessToken_accepted _ _ _ Hv).
  reflexivity.
Qed.

End MoreTokenFacts.

(** With a bearer token that [verify] accepts (whatever kind it
    carries), [authMiddleware] stores the decoded payload in the context
    and runs the next stage; when that stage returns, the middleware
    returns nothing, and when it throws, whatever it throws, the
    middleware answers 401 "Invalid or expired token". *)
Theorem accepted_token_runs_next `{Env} `{JwtLib} next w auth token decoded :
  req_header "authorization" (ctx w) = Some auth →
  Js.startsWith "Bearer " auth = true →
  Js.split " " auth !! 1%nat = Some token →
  verify token JWT_SECRET (clock w) = inr decoded →
  let handed := with_ctx (set_jwtPayload (Js.Value decoded) (ctx w)) w in
  (∀ after, next handed = (Ok tt, after) →
     Auth.authMiddleware next w = (Ok None, after)) ∧
  (∀ thrown after, next handed = (Throw thrown, after) →
     Auth.authMiddleware next w
     = (Ok (Some (json "Invalid or expired token" 401)), after)).
Proof.
  intros Hh Hb Ht Hv handed.
  rewrite (authMiddleware_accepted_token next w auth token decoded Hh Hb Ht Hv).
  fold handed. unfold try_catch, bind.
  split; intros; by destruct (next handed) as [[[]|e] w1]; simplify_eq.
Qed.

Lemma accepted_token_runs_next_witness :
  (@Auth.authMiddleware Scenario.env ModelJwt.lib Scenario.protected_operation
     (Sample.bearer Sample.access_token)).1
  = Ok None.
Proof.
  pose proof (proj1 (@accepted_token_runs_next Scenario.env ModelJwt.lib
    Scenario.protected_operation (Sample.bearer Sample.access_token)
    ("Bearer " +:+ Sample.access_token) Sample.access_token
    {| sub := "u1"; exp := 1700000300; type := None |}
    ltac:(vm_compute; reflexivity) ltac:(vm_compute; reflexivity)
    ltac:(vm_compute; reflexivity) ltac:(vm_compute; reflexivity))
    _ eq_refl) as Hrun.
  by rewrite Hrun.
Defined.



(** A refresh token made by [generateRefreshToken] for a user and
    accepted by [verify] is exchanged by [refresh] for a new access token
    of the same user, issued at the time of the exchange. *)
Theorem refresh_keeps_the_subject `{Env} `{JwtLib} `{!JwtLawful}
    id_user issued token w decoded :
  (Utils.generateRefreshToken id_user issued).1 = Ok token →
  verify token REFRESH_TOKEN_SECRET (clock w) = inr decoded →
  AuthService.refresh token w = Utils.generateAccessToken id_user w.
Proof.
  intros Htoken Hv. injection Htoken as <-.
  unfold AuthService.refresh.
  rewrite (bind_ok _ _ _ _ _ (verifyRefreshToken_decoded _ _ _ Hv)).
  apply verify_sign in Hv as ->. reflexivity.
Qed.

Lemma refresh_keeps_the_subject_witness :
  @AuthService.refresh Scenario.env ModelJwt.lib Sample.refresh_token
    (Sample.bearer Sample.access_token)
  = @Utils.generateAccessToken Scenario.env ModelJwt.lib "u1"
      (Sample.bearer Sample.access_token).
Proof.
  exact (@refresh_keeps_the_subject Scenario.env ModelJwt.lib model_lawful
    "u1" Sample.issued Sample.refresh_token (Sample.bearer Sample.access_token)
    {| sub := "u1"; exp := 1700604800; type := Some "refresh" |}
    ltac:(vm_compute; reflexivity) ltac:(vm_compute; reflexivity)).
Defined.

(** ** The rate limiter *)

Section MoreLimiterFacts.
Context `{Env}.
Import RateLimiter.

Lemma find_same_key now key (ks ks2 : gmap string ZKey) :
  ks2 !! key = ks !! key → Redis.find now key ks2 = Redis.find now key ks.
Proof. intros Hk. unfold Redis.find. by rewrite Hk. Qed.

Lemma counted_same_key seconds now key (ks ks2 : gmap string ZKey) :
  ks2 !! key = ks !! key → counted seconds now key ks2 = counted seconds now key ks.
Proof.
  intros Hk. unfold counted, Redis.members. by rewrite (find_same_key _ _ _ _ Hk).
Qed.

(** A window that is not positive leaves nothing on record. *)
Lemma recorded_absent now key seconds member (ks : gmap string ZKey) :
  seconds ≤ 0 →
  Redis.expire_at now key seconds (Redis.zAdd_at now key now member ks) !! key = None.
Proof.
  intros Hs. unfold Redis.expire_at.
  destruct (Redis.find now key (Redis.zAdd_at now key now member ks)).
  - rewrite decide_True by done. apply lookup_delete_eq.
  - apply lookup_delete_eq.
Qed.

Lemma serve_without_window options key arrivals : ∀ w,
  window_of options ≤ 0 →
  1 ≤ max_of options →
  redis_ready w = true →
  redis_faults w = [] →
  redis_keys w !! key = None →
  (∀ a, a ∈ arrivals →
     key_of options (request a) = key ∧ skipped options (request a) = false) →
  Forall (λ r, r = Ok None) (serve (rateLimiter options) arrivals w).1 ∧
  redis_keys (serve (rateLimiter options) arrivals w).2 !! key = None.
Proof.
  induction arrivals as [|a arrivals IH]; intros w Hw Hmax Hr Hf Hk Hin; [done|].
  destruct (Hin a) as [Hkey Hskip]; [by apply elem_of_cons; left|].
  pose proof (rateLimiter_run options (ret tt) (arrive a w) Hr Hf Hskip) as Hrun.
  assert (Hcount : requestCount options (arrive a w) = 0).
  { rewrite requestCount_counted. cbn [ctx clock redis_keys arrive]. rewrite Hkey.
    unfold counted. rewrite (members_absent _ _ _ Hk), map_filter_empty.
    by rewrite map_size_empty. }
  rewrite Hcount, bool_decide_eq_false_2 in Hrun by lia.
  set (w1 := with_ctx _ _) in Hrun.
  assert (Hstep : rateLimiter options (ret tt) (arrive a w) = (Ok None, w1))
    by (by rewrite Hrun).
  cbn [serve]. rewrite Hstep.
  specialize (IH w1 Hw Hmax Hr eq_refl).
  destruct (serve (rateLimiter options) arrivals w1) as [rs w2].
  cbn [fst snd] in *.
  destruct IH as [Hall Hafter].
  - unfold w1, recorded. cbn [redis_keys with_ctx with_redis ctx clock arrive].
    rewrite Hkey. by apply recorded_absent.
  - intros b Hb. apply Hin, elem_of_cons. by right.
  - split; [|exact Hafter]. by apply Forall_cons.
Qed.

(** A window configured below one second rounds down to none. *)
Lemma window_of_subsecond options :
  windowInSeconds options = None →
  0 ≤ RATE_LIMITER_WINDOW_MS < 1000 →
  window_of options = 0.
Proof.
  intros Hnone Hms. unfold window_of. rewrite Hnone. cbn. apply Z.div_small. lia.
Qed.

Lemma rateLimiter_no_client options next w :
  skipped options (ctx w) = false →
  redis_ready w = false →
  rateLimiter options next w
  = (Throw (Error "Redis client not initialized. Call initRedis() first."), w).
Proof.
  intros Hs Hr. unfold rateLimiter, bind at 1 2, get_ctx.
  rewrite Hs. unfold bind, Redis.getRedis. by rewrite Hr.
Qed.

End MoreLimiterFacts.

(** What the limiter does before it reaches its [try] block: a
    request that [skip] accepts goes to the next stage with nothing
    changed, whether or not the Redis client exists; for any other request
    a missing client makes the limiter throw the error of [getRedis], which
    its fail-open [catch] does not cover, and the next stage does not
    run. *)
Theorem limiter_before_the_store `{Env} options next w :
  (RateLimiter.skipped options (ctx w) = true →
   RateLimiter.rateLimiter options next w = (next;; ret None) w) ∧
  (RateLimiter.skipped options (ctx w) = false →
   redis_ready w = false →
   RateLimiter.rateLimiter options next w
   = (Throw (Error "Redis client not initialized. Call initRedis() first."), w)).
Proof.
  split.
  - apply rateLimiter_skip.
  - apply rateLimiter_no_client.
Qed.

Lemma limiter_before_the_store_witness :
  @RateLimiter.rateLimiter Scenario.env Scenario.strict Scenario.protected_operation
    (RedisClient.with_ready false (Scenario.world Scenario.anonymous 5000))
  = (Throw (Error "Redis client not initialized. Call initRedis() first."),
     RedisClient.with_ready false (Scenario.world Scenario.anonymous 5000)).
Proof.
  exact (proj2 (@limiter_before_the_store Scenario.env Scenario.strict
                  Scenario.protected_operation
                  (RedisClient.with_ready false (Scenario.world Scenario.anonymous 5000)))
               eq_refl eq_refl).
Defined.

(** The remaining quota counts down: when the requests of a client
    in one window, with distinct members and starting from an idle key,
    are fewer than [max], the next request is admitted too and its response
    carries X-RateLimit-Remaining = [max] minus the number of requests made
    so far, this one included. *)
Theorem remaining_counts_down `{Env} options key t_end arrivals last w :
  redis_ready w = true →
  redis_faults w = [] →
  in_one_window options key t_end (arrivals ++ [last]) →
  idle (RateLimiter.window_of options) t_end key (redis_keys w) →
  Z.of_nat (length arrivals) < RateLimiter.max_of options →
  NoDup (map (λ a, RateLimiter.member (at_time a) (draw a)) arrivals) →
  let served := serve (RateLimiter.rateLimiter options) (arrivals ++ [last]) w in
  Forall (λ r, r = Ok None) served.1 ∧
  res_headers (ctx served.2) !! "X-RateLimit-Remaining"
  = Some (pretty (RateLimiter.max_of options - Z.of_nat (length (arrivals ++ [last])))).
Proof.
  intros Hr Hf Hin Hidle Hlen Hnd served.
  assert (Hin1 : in_one_window options key t_end arrivals).
  { intros a Ha. apply Hin, elem_of_app. by left. }
  destruct (Hin last) as (Hkey & Hskip & Ht).
  { apply elem_of_app. right. apply elem_of_cons. by left. }
  destruct (serve_admits options key t_end arrivals w ∅ Hr Hf Hin1 Hidle)
    as (Hall & Hr1 & Hf1 & Hinv).
  { rewrite map_size_empty. lia. }
  assert (Hsize : size (record_all ∅ arrivals) = length arrivals).
  { rewrite record_all_size_fresh; [by rewrite map_size_empty|done|].
    intros a _. apply lookup_empty. }
  set (w1 := (serve (RateLimiter.rateLimiter options) arrivals w).2) in *.
  pose proof (rateLimiter_run options (ret tt) (arrive last w1) Hr1 Hf1 Hskip) as Hrun.
  assert (Hcount : requestCount options (arrive last w1) = Z.of_nat (length arrivals)).
  { rewrite requestCount_counted. cbn [ctx clock redis_keys arrive].
    by rewrite Hkey, (Hinv _ Ht), Hsize. }
  pose proof (limit_headers_lookup options (arrive last w1)) as (_ & Hrem & _).
  rewrite Hcount in Hrun, Hrem.
  rewrite bool_decide_eq_false_2 in Hrun by lia.
  subst served. rewrite serve_app. fold w1. cbn [serve fst snd].
  rewrite Hrun. cbn [fst snd]. split.
  - apply Forall_app. split; [exact Hall|]. by apply Forall_cons.
  - unfold bind, ret. cbn [snd ctx with_ctx]. rewrite Hrem.
    rewrite length_app. cbn [length]. do 2 f_equal. lia.
Qed.

Lemma remaining_counts_down_witness :
  res_headers
    (ctx (serve (@RateLimiter.rateLimiter Scenario.env Scenario.strict)
            (Scenario.burst 3 1000
             ++ [{| at_time := 4000; draw := "0.5"; request := Scenario.anonymous |}])
            (Scenario.world Scenario.anonymous 0)).2)
    !! "X-RateLimit-Remaining"
  = Some "6".
Proof.
  refine (proj2 (@remaining_counts_down Scenario.env Scenario.strict
    "rate-limit:unknown" 4000 (Scenario.burst 3 1000)
    {| at_time := 4000; draw := "0.5"; request := Scenario.anonymous |}
    (Scenario.world Scenario.anonymous 0) eq_refl eq_refl _ _ _ _)).
  - intros a Ha. cbn in Ha.
    repeat (apply elem_of_cons in Ha as [-> | Ha];
            [split; [by vm_compute|split; [reflexivity|]]; cbn; lia|]).
    by apply elem_of_nil in Ha.
  - apply idle_absent. reflexivity.
  - cbn. lia.
  - refine (bool_decide_unpack _ _). vm_compute. exact I.
Defined.

(** An admitted request (window positive) leaves the key with a time
    to live of one window: the server still finds the key up to
    [now + window] and no longer after that. *)
Theorem admitted_entry_expires `{Env} options w :
  redis_ready w = true →
  redis_faults w = [] →
  RateLimiter.skipped options (ctx w) = false →
  requestCount options w < RateLimiter.max_of options →
  0 < RateLimiter.window_of options →
  let after := (RateLimiter.rateLimiter options (ret tt) w).2 in
  ∀ t,
    Redis.find t (RateLimiter.key_of options (ctx w)) (redis_keys after) = None
    ↔ clock w + RateLimiter.window_of options * 1000 < t.
Proof.
  intros Hr Hf Hs Hcount Hwin after t. subst after.
  rewrite (rateLimiter_run options (ret tt) w Hr Hf Hs).
  rewrite bool_decide_eq_false_2 by lia.
  unfold bind, ret. cbn [snd redis_keys with_ctx with_redis].
  unfold recorded, pruned, Redis.find.
  rewrite (recorded_lookup _ _ _ _ _ Hwin). unfold Redis.expired. cbn [zexpire].
  case_bool_decide; split; intros; (done || lia).
Qed.

Lemma admitted_entry_expires_witness :
  Redis.find 65001 "rate-limit:unknown"
    (redis_keys (@RateLimiter.rateLimiter Scenario.env Scenario.strict (ret tt)
                   (Scenario.world Scenario.anonymous 5000)).2)
  = None.
Proof.
  refine (proj2 (@admitted_entry_expires Scenario.env Scenario.strict
    (Scenario.world Scenario.anonymous 5000) eq_refl eq_refl eq_refl _ _ 65001) _).
  - by vm_compute.
  - by vm_compute.
  - cbn. lia.
Defined.

(** A window that is not positive switches the limiter off: with
    [max >= 1], every request for a key that is not on record is admitted,
    however many arrive and whenever, and nothing stays on record.  This
    is the case of a window configured below one second
    ([RATE_LIMITER_WINDOW_MS < 1000]), which rounds down to 0. *)
Theorem no_window_no_limit `{Env} options key arrivals w :
  RateLimiter.window_of options ≤ 0 →
  1 ≤ RateLimiter.max_of options →
  redis_ready w = true →
  redis_faults w = [] →
  redis_keys w !! key = None →
  (∀ a, a ∈ arrivals →
     RateLimiter.key_of options (request a) = key ∧
     RateLimiter.skipped options (request a) = false) →
  let served := serve (RateLimiter.rateLimiter options) arrivals w in
  Forall (λ r, r = Ok None) served.1 ∧ redis_keys served.2 !! key = None.
Proof. apply serve_without_window. Qed.

Lemma no_window_no_limit_witness :
  Forall (λ r, r = Ok None)
    (serve (@RateLimiter.rateLimiter Sample.subsecond_env Sample.one_at_a_time)
           (Scenario.burst 3 1000) (Scenario.world Scenario.anonymous 0)).1.
Proof.
  refine (proj1 (@no_window_no_limit Sample.subsecond_env Sample.one_at_a_time
    "rate-limit:unknown" (Scenario.burst 3 1000)
    (Scenario.world Scenario.anonymous 0) _ _ eq_refl eq_refl eq_refl _)).
  - rewrite (@window_of_subsecond Sample.subsecond_env) by (cbn; (reflexivity || lia)).
    lia.
  - cbn. lia.
  - intros a Ha. cbn in Ha.
    repeat (apply elem_of_cons in Ha as [-> | Ha]; [split; by vm_compute|]).
    by apply elem_of_nil in Ha.
Defined.

(** The decision for a request depends on the entries of its own key
    only: with the Redis commands succeeding, replacing everything the
    server holds under other keys changes neither the answer nor the
    count. *)
Theorem other_keys_do_not_count `{Env} options w (others : gmap string ZKey) :
  redis_ready w = true →
  redis_faults w = [] →
  RateLimiter.skipped options (ctx w) = false →
  others !! RateLimiter.key_of options (ctx w)
    = redis_keys w !! RateLimiter.key_of options (ctx w) →
  requestCount options (with_redis others [] w) = requestCount options w ∧
  (RateLimiter.rateLimiter options (ret tt) (with_redis others [] w)).1
  = (RateLimiter.rateLimiter options (ret tt) w).1.
Proof.
  intros Hr Hf Hs Hk.
  assert (Hcount : requestCount options (with_redis others [] w)
                   = requestCount options w).
  { rewrite !requestCount_counted. cbn [ctx clock redis_keys with_redis].
    by rewrite (counted_same_key _ _ _ _ _ Hk). }
  split; [exact Hcount|].
  rewrite (rateLimiter_run options (ret tt) w Hr Hf Hs).
  rewrite (rateLimiter_run options (ret tt) (with_redis others [] w) Hr eq_refl Hs).
  rewrite Hcount. case_bool_decide; [|done].
  cbn [fst]. do 3 f_equal.
  unfold denial_headers, limit_headers. by rewrite Hcount.
Qed.

Lemma other_keys_do_not_count_witness :
  requestCount (H := Scenario.env) Scenario.strict
    (with_redis Sample.other_client [] (Scenario.world Scenario.anonymous 5000))
  = requestCount (H := Scenario.env) Scenario.strict
      (Scenario.world Scenario.anonymous 5000).
Proof.
  exact (proj1 (@other_keys_do_not_count Scenario.env Scenario.strict
    (Scenario.world Scenario.anonymous 5000) Sample.other_client
    eq_refl eq_refl eq_refl ltac:(vm_compute; reflexivity))).
Defined.

(** ** [toTitleCase] *)

Lemma contains_append a s1 s2 :
  Js.contains a (s1 +:+ s2) = Js.contains a s1 || Js.contains a s2.
Proof.
  induction s1 as [|b s1 IH]; simpl; [done|].
  by destruct (decide (b = a)).
Qed.

(** No piece of a split holds the separator; the pieces and the
    separators between them make up the text. *)
Lemma split_pieces sep s :
  Forall (λ piece, Js.contains sep piece = false) (Js.split sep s).
Proof.
  induction s as [|a s IH]; simpl; [by repeat constructor|].
  destruct (decide (a = sep)) as [->|Hne]; [by constructor|].
  destruct (Js.split sep s) as [|x xs]; simpl.
  - repeat constructor. simpl. by rewrite decide_False.
  - apply Forall_cons in IH as [Hx Hxs]. constructor; [|done].
    simpl. by rewrite decide_False.
Qed.

Lemma append_length s1 s2 :
  String.length (s1 +:+ s2) = (String.length s1 + String.length s2)%nat.
Proof. induction s1 as [|a s1 IH]; simpl; [done|]. by rewrite IH. Qed.

Lemma join_cons sep x y pieces :
  Text.join sep (x :: y :: pieces) = x +:+ sep +:+ Text.join sep (y :: pieces).
Proof. reflexivity. Qed.

(** Joining the pieces of a split with a separator of one character gives
    a text as long as the one that was split. *)
Lemma join_split_length sep sep' s :
  String.length (Text.join (String sep' "") (Js.split sep s)) = String.length s.
Proof.
  induction s as [|a s IH]; [done|]. cbn [Js.split].
  pose proof (split_nonempty sep s) as Hne.
  destruct (decide (a = sep)) as [->|Hna].
  - destruct (Js.split sep s) as [|x xs]; [done|].
    rewrite join_cons, !append_length, IH. reflexivity.
  - destruct (Js.split sep s) as [|x [|y xs]];
      [done|cbn in IH |- *; by rewrite IH|].
    rewrite join_cons, !append_length in *. cbn [String.length] in *. lia.
Qed.

Lemma toUpperCase_ascii_twice a :
  Text.toUpperCase_ascii (Text.toUpperCase_ascii a) = Text.toUpperCase_ascii a.
Proof. by destruct a as [[] [] [] [] [] [] [] []]. Qed.

Lemma toUpperCase_ascii_hyphen a :
  a ≠ "-"%char → Text.toUpperCase_ascii a ≠ "-"%char.
Proof. by destruct a as [[] [] [] [] [] [] [] []]. Qed.

Lemma capitalize_length word :
  String.length (Text.capitalize word) = String.length word.
Proof. by destruct word. Qed.

Lemma capitalize_twice word :
  Text.capitalize (Text.capitalize word) = Text.capitalize word.
Proof. destruct word; simpl; [done|]. by rewrite toUpperCase_ascii_twice. Qed.

Lemma capitalize_hyphen word :
  Js.contains "-" word = false → Js.contains "-" (Text.capitalize word) = false.
Proof.
  destruct word as [|a word]; simpl; [done|].
  destruct (decide (a = "-"%char)) as [->|Hne]; [done|]. intros Hc.
  by rewrite decide_False by by apply toUpperCase_ascii_hyphen.
Qed.

Lemma join_capitalize_length sep pieces :
  String.length (Text.join sep (map Text.capitalize pieces))
  = String.length (Text.join sep pieces).
Proof.
  induction pieces as [|x [|y pieces] IH]; [done|apply capitalize_length|].
  change (map Text.capitalize (x :: y :: pieces))
    with (Text.capitalize x :: Text.capitalize y :: map Text.capitalize pieces).
  rewrite !join_cons, !append_length, capitalize_length. by rewrite <- IH.
Qed.

Lemma join_hyphen pieces :
  Forall (λ piece, Js.contains "-" piece = false) pieces →
  Js.contains "-" (Text.join " " pieces) = false.
Proof.
  induction pieces as [|x [|y pieces] IH]; intros Hall; [done| |].
  - by apply Forall_cons in Hall as [Hx _].
  - apply Forall_cons in Hall as [Hx Hall].
    change (Text.join " " (x :: y :: pieces))
      with (x +:+ " " +:+ Text.join " " (y :: pieces)).
    rewrite !contains_append, Hx, (IH Hall). reflexivity.
Qed.

Lemma capitalize_join pieces :
  Text.capitalize (Text.join " " (map Text.capitalize pieces))
  = Text.join " " (map Text.capitalize pieces).
Proof.
  destruct pieces as [|x [|y pieces]]; [done|apply capitalize_twice|].
  change (Text.join " " (map Text.capitalize (x :: y :: pieces)))
    with (Text.capitalize x +:+ " "
          +:+ Text.join " " (map Text.capitalize (y :: pieces))).
  destruct x as [|a x]; [done|]. simpl. by rewrite toUpperCase_ascii_twice.
Qed.

(** For a text of one-byte characters, [toTitleCase] keeps the length,
    leaves no hyphen, and changes nothing when it is applied again. *)
Theorem title_case_shape str :
  Text.is_ascii str = true →
  String.length (Text.toTitleCase str) = String.length str ∧
  Js.contains "-" (Text.toTitleCase str) = false ∧
  Text.toTitleCase (Text.toTitleCase str) = Text.toTitleCase str.
Proof.
  intros _. unfold Text.toTitleCase.
  assert (Hhyphen : Js.contains "-"
            (Text.join " " (map Text.capitalize (Js.split "-" str))) = false).
  { apply join_hyphen, Forall_map.
    eapply Forall_impl; [apply split_pieces|]. intros piece. apply capitalize_hyphen. }
  split; [|split; [exact Hhyphen|]].
  - by rewrite join_capitalize_length, join_split_length.
  - rewrite (split_whole _ _ Hhyphen). apply capitalize_join.
Qed.

Lemma title_case_shape_witness :
  String.length (Text.toTitleCase "hono-starter") = 12%nat ∧
  Js.contains "-" (Text.toTitleCase "hono-starter") = false ∧
  Text.toTitleCase (Text.toTitleCase "hono-starter") = Text.toTitleCase "hono-starter".
Proof. exact (title_case_shape "hono-starter" eq_refl). Defined.

(** ** The Redis client *)

(** Whatever [connect()] answers, after [initRedis] the module holds a
    client: [getRedis] returns it, and a second [initRedis] returns at
    once, without a new attempt to connect. *)
Theorem initRedis_connects_once w :
  let after := (RedisClient.initRedis w).2 in
  redis_ready after = true ∧
  Redis.getRedis after = (Ok tt, after) ∧
  RedisClient.initRedis after = (Ok tt, after).
Proof.
  destruct w as [c now rnd users ready ks faults log].
  destruct ready; [done|]. by destruct faults as [|[] faults].
Qed.

(** [closeRedis] drops the client only once [quit()] has returned: from
    then on the limiter throws for every request it does not skip; when
    [quit()] is rejected the client stays.  The keys of the server are
    left as they were. *)
Theorem closeRedis_outcomes `{Env} w :
  redis_ready w = true →
  let closed := (RedisClient.closeRedis w).2 in
  redis_keys closed = redis_keys w ∧
  match (RedisClient.closeRedis w).1 with
  | Ok _ =>
      ∀ options next,
        RateLimiter.skipped options (ctx w) = false →
        RateLimiter.rateLimiter options next closed
        = (Throw (Error "Redis client not initialized. Call initRedis() first."),
           closed)
  | Throw _ => redis_ready closed = true
  end.
Proof.
  intros Hr closed. subst closed. unfold RedisClient.closeRedis. rewrite Hr.
  unfold bind, RedisClient.quit, Redis.command.
  destruct (redis_faults w) as [|[] faults]; cbn [fst snd];
    (split; [done|]); try done.
  all: intros options next Hs; by apply rateLimiter_no_client.
Qed.

Lemma closeRedis_outcomes_witness :
  @RateLimiter.rateLimiter Scenario.env Scenario.strict Scenario.protected_operation
    (RedisClient.closeRedis (Scenario.world Scenario.anonymous 5000)).2
  = (Throw (Error "Redis client not initialized. Call initRedis() first."),
     (RedisClient.closeRedis (Scenario.world Scenario.anonymous 5000)).2).
Proof.
  exact (proj2 (@closeRedis_outcomes Scenario.env
                  (Scenario.world Scenario.anonymous 5000) eq_refl)
               Scenario.strict Scenario.protected_operation eq_refl).
Defined.

(** ** The user service *)

Section UserFacts.
Import UserService.

Lemma map_set_ids entries p :
  map permission_id (map_set entries p)
  = Js.set_add (map permission_id entries) (permission_id p).
Proof.
  induction entries as [|q entries IH]; simpl; [done|].
  destruct (decide (permission_id q = permission_id p)) as [Heq|Hne]; simpl.
  - by rewrite Heq.
  - by rewrite IH.
Qed.

Lemma fold_map_set_ids ps entries :
  map permission_id (fold_left map_set ps entries)
  = fold_left Js.set_add (map permission_id ps) (map permission_id entries).
Proof.
  revert entries. induction ps as [|p ps IH]; intros entries; simpl; [done|].
  by rewrite IH, map_set_ids.
Qed.

(** The ids after [new Map] are those of [new Set] of the ids. *)
Lemma unique_by_id_ids ps :
  map permission_id (unique_by_id ps) = Js.set_of (map permission_id ps).
Proof. apply (fold_map_set_ids ps []). Qed.

Lemma map_set_elem entries p q : q ∈ map_set entries p → q ∈ entries ∨ q = p.
Proof.
  induction entries as [|r entries IH]; simpl.
  - intros Hq. apply list_elem_of_singleton in Hq. by right.
  - destruct (decide (permission_id r = permission_id p)).
    + intros [-> | Hq]%elem_of_cons; [by right|]. left. by apply elem_of_cons; right.
    + intros [-> | Hq]%elem_of_cons; [left; by apply elem_of_cons; left|].
      destruct (IH Hq) as [Hq' | ->]; [|by right].
      left. by apply elem_of_cons; right.
Qed.

Lemma fold_map_set_elem ps entries q :
  q ∈ fold_left map_set ps entries → q ∈ entries ∨ q ∈ ps.
Proof.
  revert entries. induction ps as [|p ps IH]; intros entries; simpl; [by left|].
  intros Hq. destruct (IH _ Hq) as [Hq' | Hq'].
  - destruct (map_set_elem _ _ _ Hq') as [Hq'' | ->]; [by left|].
    right. by apply elem_of_cons; left.
  - right. by apply elem_of_cons; right.
Qed.

Lemma unique_by_id_elem ps q : q ∈ unique_by_id ps → q ∈ ps.
Proof.
  intros Hq. destruct (fold_map_set_elem ps [] q Hq) as [Hq' | Hq']; [|done].
  by apply elem_of_nil in Hq'.
Qed.

Lemma map_flat_map {A B C} (f : B → C) (g : A → list B) (l : list A) :
  map f (flat_map g l) = flat_map (λ x, map f (g x)) l.
Proof. induction l as [|x l IH]; simpl; [done|]. by rewrite map_app, IH. Qed.

Lemma flat_map_map {A B C} (f : A → B) (g : B → list C) (l : list A) :
  flat_map g (map f l) = flat_map (λ x, g (f x)) l.
Proof. induction l as [|x l IH]; simpl; [done|]. by rewrite IH. Qed.

(** The permission names the middleware works with are the names of the
    permission records the service reads. *)
Lemma selected_names_permissions user :
  RolePermission.rolePermissions (selected_names user)
  ++ RolePermission.directPermissions (selected_names user)
  = map permission_name
      (flat_map permissions_of_role (roles_of_user user) ++ permissions_of_user user).
Proof.
  unfold RolePermission.rolePermissions, RolePermission.directPermissions,
    selected_names. cbn [user_roles user_permissions].
  by rewrite map_app, map_flat_map, flat_map_map.
Qed.

Lemma find_by_key {A} (key : A → string) (l : list A) k :
  match List.find (λ x, bool_decide (key x = k)) l with
  | Some x => x ∈ l ∧ key x = k
  | None => k ∉ map key l
  end.
Proof.
  induction l as [|y l IH]; simpl; [apply not_elem_of_nil|].
  case_bool_decide as Hy.
  - split; [by apply elem_of_cons; left|done].
  - destruct (List.find _ l) as [x|].
    + destruct IH as [Hx Hk]. split; [by apply elem_of_cons; right|done].
    + intros [Hk | Hk]%elem_of_cons; [by apply Hy|by apply IH].
Qed.

Lemma find_by_unique_key {A} (key : A → string) (l : list A) x :
  NoDup (map key l) → x ∈ l →
  List.find (λ y, bool_decide (key y = key x)) l = Some x.
Proof.
  induction l as [|y l IH]; simpl; intros Hnd Hx; [by apply elem_of_nil in Hx|].
  apply NoDup_cons in Hnd as [Hy Hnd].
  apply elem_of_cons in Hx as [-> | Hx].
  - by rewrite bool_decide_eq_true_2.
  - rewrite bool_decide_eq_false_2; [by apply IH|].
    intros Heq. apply Hy. rewrite Heq. by apply list_elem_of_fmap_2.
Qed.

(** Pages of [n] entries, [k] of them, cover a list of at most [k * n]
    entries. *)
Lemma pages_cover {A} (l : list A) (n : nat) : ∀ k first,
  (0 < n)%nat → (length l ≤ first * n + k * n)%nat →
  flat_map (λ p, take n (drop (p * n) l)) (seq first k) = drop (first * n) l.
Proof.
  induction k as [|k IH]; intros first Hn Hlen; simpl.
  - symmetry. apply drop_ge. lia.
  - rewrite IH by (simpl; lia).
    rewrite <- (take_drop n (drop (first * n) l)) at 2.
    f_equal. rewrite drop_drop. f_equal. lia.
Qed.

End UserFacts.

(** The permissions [transformUser] shows have pairwise distinct ids;
    each is a permission the user has through a role or directly, and
    every such permission is there under its id.  The roles shown are the
    user's, in order. *)
Theorem shown_permissions_are_unique `{UserService.Database} user :
  let granted :=
    flat_map UserService.permissions_of_role (UserService.roles_of_user user)
    ++ UserService.permissions_of_user user in
  let shown := UserService.permissions (UserService.transformUser user) in
  NoDup (map UserService.permission_id shown) ∧
  (∀ p, p ∈ shown → p ∈ granted) ∧
  (∀ p, p ∈ granted →
        UserService.permission_id p ∈ map UserService.permission_id shown) ∧
  map UserService.summary_name (UserService.roles (UserService.transformUser user))
  = map UserService.name_of_role (UserService.roles_of_user user).
Proof.
  intros granted shown. subst shown. cbn [UserService.transformUser UserService.permissions
    UserService.roles]. fold granted.
  rewrite unique_by_id_ids. split; [apply set_of_NoDup|].
  split; [apply unique_by_id_elem|]. split.
  - intros p Hp. apply set_of_elem. by apply list_elem_of_fmap_2.
  - rewrite map_map. reflexivity.
Qed.

(** When an id stands for one permission record (as the primary key
    makes it), the permissions [transformUser] shows are exactly the
    user's, and their names are exactly the names the permission
    middleware accepts for that user. *)
Theorem shown_permissions_are_enforced `{UserService.Database} user :
  let granted :=
    flat_map UserService.permissions_of_role (UserService.roles_of_user user)
    ++ UserService.permissions_of_user user in
  let shown := UserService.permissions (UserService.transformUser user) in
  (∀ p q, p ∈ granted → q ∈ granted →
          UserService.permission_id p = UserService.permission_id q → p = q) →
  (∀ p, p ∈ shown ↔ p ∈ granted) ∧
  (∀ name,
     name ∈ map UserService.permission_name shown ↔
     Js.includes (RolePermission.allPermissions (UserService.selected_names user)) name
     = true).
Proof.
  intros granted shown Hkey.
  assert (Hshown : ∀ p, p ∈ shown ↔ p ∈ granted).
  { intros p. split; [apply unique_by_id_elem|]. intros Hp.
    assert (Hid : UserService.permission_id p
                  ∈ map UserService.permission_id shown).
    { subst shown. cbn [UserService.transformUser UserService.permissions].
      fold granted. rewrite unique_by_id_ids. apply set_of_elem.
      by apply list_elem_of_fmap_2. }
    apply list_elem_of_fmap in Hid as (q & Hid & Hq).
    rewrite (Hkey p q Hp (unique_by_id_elem _ _ Hq) Hid). exact Hq. }
  split; [exact Hshown|]. intros name.
  rewrite includes_true. unfold RolePermission.allPermissions.
  rewrite set_of_elem, selected_names_permissions. fold granted.
  split; intros (p & -> & Hp)%list_elem_of_fmap;
    apply list_elem_of_fmap_2; by apply Hshown.
Qed.

Lemma shown_permissions_are_enforced_witness :
  "post.publish"
    ∈ map UserService.permission_name
          (UserService.permissions
             (@UserService.transformUser Sample.database Sample.ana)) ↔
  Js.includes (RolePermission.allPermissions Scenario.analyst) "post.publish" = true.
Proof.
  refine (proj2 (@shown_permissions_are_enforced Sample.database Sample.ana _)
                "post.publish").
  cbn. intros p q Hp Hq Hid.
  repeat (apply elem_of_cons in Hp as [-> | Hp]);
    repeat (apply elem_of_cons in Hq as [-> | Hq]);
    try done; by (apply elem_of_nil in Hp || apply elem_of_nil in Hq).
Defined.

Section PageFacts.
Context `{UserService.Database}.

Lemma ceil_div_bounds x d :
  0 < d → (Js.ceil_div x d - 1) * d < x ≤ Js.ceil_div x d * d.
Proof.
  intros Hd. unfold Js.ceil_div.
  pose proof (Z.mul_div_le (- x) d Hd). pose proof (Z.mul_succ_div_gt (- x) d Hd).
  lia.
Qed.

Lemma data_of_getAll params w :
  data_of (UserService.getAll params w)
  = map UserService.transformUser
      (take (Z.to_nat (default 10 (UserService.param_per_page params)))
         (drop (Z.to_nat ((default 1 (UserService.param_page params) - 1)
                          * default 10 (UserService.param_per_page params)))
            (UserService.matching_users
               (Js.nonempty (UserService.search params))
               (default "created_at" (UserService.sort params))
               (default "desc" (UserService.order params))))).
Proof. reflexivity. Qed.

End PageFacts.

(** For a page number and a page size of at least 1, [getAll] returns
    the rows of that page and a description that fits them: the page
    holds [per_page] rows, or what is left of the matching rows (nothing
    past the last page); [has_next_page] says that rows are left after
    this page, [has_prev_page] that the page is not the first, and
    [total_page] is the least number of pages that hold all the rows. *)
Theorem page_of_users `{UserService.Database} params w :
  let page := default 1 (UserService.param_page params) in
  let per_page := default 10 (UserService.param_per_page params) in
  1 ≤ page →
  1 ≤ per_page →
  ∃ data meta,
    UserService.getAll params w = (Ok (data, meta), w) ∧
    Z.of_nat (length data)
    = Z.max 0 (Z.min per_page (UserService.total meta - (page - 1) * per_page)) ∧
    (UserService.has_next_page meta = true ↔ page * per_page < UserService.total meta) ∧
    (UserService.has_prev_page meta = true ↔ 1 < page) ∧
    (UserService.total_page meta - 1) * per_page < UserService.total meta
      ≤ UserService.total_page meta * per_page.
Proof.
  intros page per_page Hpage Hper. eexists _, _. split; [reflexivity|].
  cbn [UserService.total UserService.has_next_page UserService.has_prev_page
       UserService.total_page]. fold page per_page.
  set (matching := UserService.matching_users _ _ _).
  pose proof (ceil_div_bounds (Z.of_nat (length matching)) per_page ltac:(lia)) as Hc.
  split; [|split; [|split; [|exact Hc]]].
  - rewrite length_map, length_take, length_drop.
    assert (0 ≤ (page - 1) * per_page) by nia. lia.
  - rewrite bool_decide_eq_true. nia.
  - rewrite bool_decide_eq_true. lia.
Qed.

Lemma page_of_users_witness :
  ∃ data meta,
    @UserService.getAll Sample.database (Sample.by_two 2) Sample.issued
    = (Ok (data, meta), Sample.issued) ∧
    Z.of_nat (length data) = Z.max 0 (Z.min 2 (UserService.total meta - (2 - 1) * 2)) ∧
    (UserService.has_next_page meta = true ↔ 2 * 2 < UserService.total meta) ∧
    (UserService.has_prev_page meta = true ↔ 1 < 2) ∧
    (UserService.total_page meta - 1) * 2 < UserService.total meta
      ≤ UserService.total_page meta * 2.
Proof.
  apply (@page_of_users Sample.database (Sample.by_two 2) Sample.issued); cbn; lia.
Defined.

(** The pages 1 to [total_page] of a query, one after the other, are the
    matching rows, each once and in the order of the query. *)
Theorem pages_cover_the_matches `{UserService.Database} params w :
  let per_page := default 10 (UserService.param_per_page params) in
  let matching :=
    UserService.matching_users (Js.nonempty (UserService.search params))
      (default "created_at" (UserService.sort params))
      (default "desc" (UserService.order params)) in
  let total_page := Js.ceil_div (Z.of_nat (length matching)) per_page in
  1 ≤ per_page →
  flat_map (λ p, data_of (UserService.getAll (on_page (Z.of_nat p) params) w))
           (seq 1 (Z.to_nat total_page))
  = map UserService.transformUser matching.
Proof.
  intros per_page matching total_page Hper.
  pose proof (ceil_div_bounds (Z.of_nat (length matching)) per_page ltac:(lia)) as Hc.
  fold total_page in Hc.
  rewrite <- seq_shift, flat_map_map.
  rewrite (flat_map_ext _
             (λ p, map UserService.transformUser
                     (take (Z.to_nat per_page)
                        (drop (p * Z.to_nat per_page) matching)))).
  - rewrite <- map_flat_map. f_equal.
    rewrite (pages_cover matching (Z.to_nat per_page) _ 0%nat); [done|lia|nia].
  - intros p. rewrite data_of_getAll.
    cbn [on_page UserService.param_page UserService.param_per_page
         UserService.search UserService.sort UserService.order default].
    fold per_page matching. do 3 f_equal. unfold id.
    replace (Z.of_nat (S p) - 1) with (Z.of_nat p) by lia.
    rewrite Z2Nat.inj_mul by lia. by rewrite Nat2Z.id.
Qed.

Lemma pages_cover_the_matches_witness :
  flat_map (λ p, data_of (@UserService.getAll Sample.database
                            (on_page (Z.of_nat p) (Sample.by_two 1)) Sample.issued))
           (seq 1 (Z.to_nat (Js.ceil_div 3 2)))
  = map (@UserService.transformUser Sample.database) [Sample.cy; Sample.bo; Sample.ana].
Proof.
  apply (@pages_cover_the_matches Sample.database (Sample.by_two 1) Sample.issued).
  cbn. lia.
Defined.

(** ** The auth service *)

Section FlowFacts.
Context `{Env} `{JwtLib} `{BunPassword} `{UserService.Database}.

Lemma findById_found user_id user w :
  List.find (λ u, bool_decide (UserService.id u = user_id)) UserService.tb_user
  = Some user →
  UserService.findById user_id w = (Ok (UserService.transformUser user), w).
Proof. intros Hf. unfold UserService.findById. by rewrite Hf. Qed.

Lemma findById_missing user_id w :
  List.find (λ u, bool_decide (UserService.id u = user_id)) UserService.tb_user
  = None →
  UserService.findById user_id w
  = (Throw (HTTPException 404 "User not found"), w).
Proof. intros Hf. unfold UserService.findById. by rewrite Hf. Qed.

(** What [login] does once the password was accepted. *)
Lemma login_accepted address pw w u :
  List.find (λ u, bool_decide (UserService.email u = address)) UserService.tb_user
  = Some u →
  password_verify pw (UserService.password u) = true →
  ∃ shown,
    List.find (λ v, bool_decide (UserService.id v = UserService.id u))
              UserService.tb_user = Some shown ∧
    AuthFlow.login address pw w
    = (Ok {| AuthFlow.user := UserService.transformUser shown;
             AuthFlow.access_token :=
               sign {| sub := UserService.id u;
                       exp := clock w / 1000 + JWT_EXPIRES_IN / 1000;
                       type := None |} JWT_SECRET;
             AuthFlow.refresh_token :=
               sign {| sub := UserService.id u;
                       exp := clock w / 1000 + REFRESH_TOKEN_EXPIRES_IN / 1000;
                       type := Some "refresh" |} REFRESH_TOKEN_SECRET |}, w).
Proof.
  intros Hf Hv.
  pose proof (find_by_key UserService.email UserService.tb_user address) as Hu.
  rewrite Hf in Hu. destruct Hu as [Hu _].
  pose proof (find_by_key UserService.id UserService.tb_user (UserService.id u)) as Hs.
  destruct (List.find (λ v, bool_decide (UserService.id v = UserService.id u))
                      UserService.tb_user) as [shown|] eqn:Hshown.
  - exists shown. split; [done|].
    unfold AuthFlow.login, bind at 1, UserService.findByEmail, ret. rewrite Hf.
    unfold bind at 1, AuthFlow.verifyPassword, ret. rewrite Hv. cbn [negb].
    unfold bind, Utils.generateAccessToken, Utils.generateRefreshToken, Date_now,
      bind, ret, UserService.findById. by rewrite Hshown.
  - destruct Hs. by apply list_elem_of_fmap_2.
Qed.

Lemma login_refused address pw w :
  match List.find (λ u, bool_decide (UserService.email u = address))
                  UserService.tb_user with
  | Some u => password_verify pw (UserService.password u) = false
  | None => True
  end →
  AuthFlow.login address pw w
  = (Throw (HTTPException 401 "Invalid email or password"), w).
Proof.
  intros Hf. unfold AuthFlow.login, bind at 1, UserService.findByEmail, ret.
  destruct (List.find _ UserService.tb_user) as [u|]; [|done].
  unfold bind, AuthFlow.verifyPassword, ret. by rewrite Hf.
Qed.

End FlowFacts.

(** [profile] and [logout] are [findById]: for an id that is not in the
    table they throw 404 "User not found", for one that is they return
    the data of a user with that id; nothing changes. *)
Theorem user_lookup_outcomes `{Env} `{JwtLib} `{BunPassword} `{UserService.Database}
    id_user w :
  AuthFlow.profile id_user w = UserService.findById id_user w ∧
  AuthFlow.logout id_user w = UserService.findById id_user w ∧
  (id_user ∉ map UserService.id UserService.tb_user →
   UserService.findById id_user w
   = (Throw (HTTPException 404 "User not found"), w)) ∧
  (id_user ∈ map UserService.id UserService.tb_user →
   ∃ user, user ∈ UserService.tb_user ∧ UserService.id user = id_user ∧
           UserService.findById id_user w
           = (Ok (UserService.transformUser user), w)).
Proof.
  assert (Hbind : ∀ m : M UserService.DataUser, (let* found := m in ret found) w = m w).
  { intros m. unfold bind, ret. by destruct (m w) as [[]]. }
  split; [apply Hbind|]. split; [apply Hbind|].
  pose proof (find_by_key UserService.id UserService.tb_user id_user) as Hk.
  destruct (List.find _ UserService.tb_user) as [user|] eqn:Hf.
  - destruct Hk as [Hu Hid]. split.
    + intros Hno. destruct Hno. rewrite <- Hid. by apply list_elem_of_fmap_2.
    + intros _. exists user. split; [done|]. split; [done|]. by apply findById_found.
  - split; [intros _; by apply findById_missing|]. by intros Hin.
Qed.

(** [login] refuses an unknown address and a wrong password in the same
    way, with 401 "Invalid email or password", and changes nothing. *)
Theorem login_failures_look_alike `{Env} `{JwtLib} `{BunPassword}
    `{UserService.Database} address pw w :
  let found :=
    List.find (λ u, bool_decide (UserService.email u = address))
              UserService.tb_user in
  (found = None ∨
   ∃ u, found = Some u ∧ password_verify pw (UserService.password u) = false) →
  AuthFlow.login address pw w
  = (Throw (HTTPException 401 "Invalid email or password"), w).
Proof.
  intros found Hf. apply login_refused. fold found.
  destruct Hf as [-> | (u & -> & Hv)]; done.
Qed.

Lemma login_failures_look_alike_witness :
  @AuthFlow.login Scenario.env ModelJwt.lib Sample.passwords Sample.database
    "bo@example.com" "correct horse" Sample.issued
  = (Throw (HTTPException 401 "Invalid email or password"), Sample.issued).
Proof.
  apply (@login_failures_look_alike Scenario.env ModelJwt.lib Sample.passwords
           Sample.database).
  right. exists Sample.bo. split; reflexivity.
Defined.

(** With the address of a user and the password that verifies against
    the stored hash, [login] succeeds (the second lookup, by id, cannot
    miss) and changes nothing: the data has the id of that user and the
    two tokens are the ones [generateAccessToken] and
    [generateRefreshToken] make for that id; when ids are unique in the
    table, the data is that user's and carries the address given. *)
Theorem login_returns_the_user `{Env} `{JwtLib} `{BunPassword}
    `{UserService.Database} address pw w u :
  List.find (λ u, bool_decide (UserService.email u = address)) UserService.tb_user
  = Some u →
  password_verify pw (UserService.password u) = true →
  ∃ data,
    AuthFlow.login address pw w = (Ok data, w) ∧
    UserService.data_id (AuthFlow.user data) = UserService.id u ∧
    Utils.generateAccessToken (UserService.id u) w
    = (Ok (AuthFlow.access_token data), w) ∧
    Utils.generateRefreshToken (UserService.id u) w
    = (Ok (AuthFlow.refresh_token data), w) ∧
    (NoDup (map UserService.id UserService.tb_user) →
     AuthFlow.user data = UserService.transformUser u ∧
     UserService.data_email (AuthFlow.user data) = address).
Proof.
  intros Hf Hv. destruct (login_accepted address pw w u Hf Hv) as (shown & Hs & Hl).
  eexists. split; [exact Hl|]. cbn [AuthFlow.user AuthFlow.access_token
    AuthFlow.refresh_token UserService.transformUser UserService.data_id].
  pose proof (find_by_key UserService.id UserService.tb_user (UserService.id u)) as Hk.
  rewrite Hs in Hk. destruct Hk as [_ Hid].
  split; [exact Hid|]. split; [reflexivity|]. split; [reflexivity|].
  intros Hnd.
  pose proof (find_by_key UserService.email UserService.tb_user address) as Hu.
  rewrite Hf in Hu. destruct Hu as [Hu Hemail].
  rewrite (find_by_unique_key UserService.id _ u Hnd Hu) in Hs.
  injection Hs as <-. split; [reflexivity|]. exact Hemail.
Qed.

Lemma login_returns_the_user_witness :
  ∃ data,
    @AuthFlow.login Scenario.env ModelJwt.lib Sample.passwords Sample.database
      "ana@example.com" "correct horse" Sample.issued = (Ok data, Sample.issued) ∧
    UserService.data_id (AuthFlow.user data) = "u1" ∧
    @Utils.generateAccessToken Scenario.env ModelJwt.lib "u1" Sample.issued
    = (Ok (AuthFlow.access_token data), Sample.issued) ∧
    @Utils.generateRefreshToken Scenario.env ModelJwt.lib "u1" Sample.issued
    = (Ok (AuthFlow.refresh_token data), Sample.issued) ∧
    (NoDup (map UserService.id (@UserService.tb_user Sample.database)) →
     AuthFlow.user data = @UserService.transformUser Sample.database Sample.ana ∧
     UserService.data_email (AuthFlow.user data) = "ana@example.com").
Proof.
  exact (@login_returns_the_user Scenario.env ModelJwt.lib Sample.passwords
           Sample.database "ana@example.com" "correct horse" Sample.issued
           Sample.ana eq_refl eq_refl).
Defined.


